(** * quill-image-drop-module: ImageDrop and ImageResize

    A shallow embedding of [src/ImageDrop.js].  The file has two classes:
    [ImageDrop] (drop and paste of image files into a Quill editor) and
    [ImageResize] (corner handles to resize a clicked image).

    Conventions of the embedding:
    - JavaScript numbers are IEEE 754 doubles.  A finite number is a
      rational, the non-finite values [Infinity], [-Infinity] and [NaN] are
      kept apart, and the result of every addition, subtraction,
      multiplication and division is rounded to binary64 (to nearest, ties
      to even, subnormal numbers included).  A result of magnitude [2^53]
      or more is kept as it is: sizes and positions in pixels stay far
      below.  The sign of zero is left out: no zero that the code computes
      is ever a divisor.
    - [img.width] is a reflected [unsigned long]: an assigned number is
      converted modulo [2^32], and what a page reports for a value beyond
      [2147483647] is up to its host (a browser stores [0], jsdom the value
      itself).
    - An inline style holds, for each property, the value last assigned by
      script.  What the CSSOM makes of a value (another serialisation, the
      longhands of a shorthand, the refusal of an invalid value) is not
      modelled; the properties proved here read back keywords, the empty
      string and lengths in whole pixels, which it keeps as written.
    - [undefined] and [null] are [None] (the code only tests them with
      truthiness and [==], which do not tell them apart).
    - An uncaught exception ends the running handler and keeps every
      mutation made before it.
    - What the browser and the host editor decide (layout, the outcome of a
      file read, the editor's selection) is an input of the model. *)

From Stdlib Require Import ZArith QArith Qround Qabs Lqa String Ascii List Lia.
From stdpp Require Import base decidable option list gmap strings functions pretty.
Import ListNotations.
Local Open Scope string_scope.
Local Open Scope Z_scope.

(** * Regular expressions

    The fragment of JavaScript regular expressions used by [readFiles]:
    literal characters, concatenation, alternation and [?].  [residuals r s]
    lists, in backtracking order, what is left of [s] after each way [r] can
    match a prefix of it. *)

Inductive regex :=
| Eps
| Chr (c : ascii)
| Cat (r1 r2 : regex)
| Alt (r1 r2 : regex)
| Opt (r : regex).

(** Case folding of the [/i] flag.  For a pattern of ASCII characters only
    ASCII letters are folded. *)
Definition canonicalize (c : ascii) : ascii :=
  let n := N_of_ascii c in
  if ((97 <=? n) && (n <=? 122))%N then ascii_of_N (n - 32) else c.

Definition chr_eqb_i (c d : ascii) : bool :=
  Ascii.eqb (canonicalize c) (canonicalize d).

Fixpoint residuals (r : regex) (s : string) : list string :=
  match r with
  | Eps => [s]
  | Chr c =>
      match s with
      | String d s' => if chr_eqb_i c d then [s'] else []
      | EmptyString => []
      end
  | Cat r1 r2 => flat_map (residuals r2) (residuals r1 s)
  | Alt r1 r2 => residuals r1 s ++ residuals r2 s
  | Opt r1 => residuals r1 s ++ [s]
  end.

(** A literal word. *)
Fixpoint lit (w : string) : regex :=
  match w with
  | EmptyString => Eps
  | String c w' => Cat (Chr c) (lit w')
  end.

(** [p] is a prefix of [s], letters compared without case. *)
Fixpoint starts_with_i (p s : string) : bool :=
  match p, s with
  | EmptyString, _ => true
  | String c p', String d s' => chr_eqb_i c d && starts_with_i p' s'
  | String _ _, EmptyString => false
  end.

(** [s] without its first [length p] characters. *)
Fixpoint skip (p s : string) : string :=
  match p, s with
  | String _ p', String _ s' => skip p' s'
  | _, _ => s
  end.

(** [s.match(/^r/i)] is truthy. *)
Definition matches_at_start (r : regex) (s : string) : bool :=
  match residuals r s with
  | [] => false
  | _ :: _ => true
  end.

(** * JavaScript numbers *)

Inductive num :=
| Fin (q : Q)
| PInf
| NInf
| NaN.

(** The value of [Math.round]: an integer or a non-finite value. *)
Inductive rounded :=
| Int (z : Z)
| Infinity
| NegInfinity
| NotANumber.

Definition of_rounded (r : rounded) : num :=
  match r with
  | Int z => Fin (inject_Z z)
  | Infinity => PInf
  | NegInfinity => NInf
  | NotANumber => NaN
  end.

Definition of_N (n : N) : num := Fin (inject_Z (Z.of_N n)).

(** [ToNumber]: [undefined] becomes [NaN]. *)
Definition to_num (v : option num) : num :=
  match v with
  | Some x => x
  | None => NaN
  end.

Definition neg (a : num) : num :=
  match a with
  | Fin x => Fin (- x)
  | PInf => NInf
  | NInf => PInf
  | NaN => NaN
  end.

(** ** Rounding to binary64 *)

(** [2^k] *)
Definition pow2 (k : Z) : Q :=
  if 0 <=? k then inject_Z (2 ^ k) else (/ inject_Z (2 ^ (- k)))%Q.

(** The binary exponent of [q <> 0]: [2^e <= |q| < 2^(e+1)]. *)
Definition ilog2 (q : Q) : Z :=
  let e := Z.log2 (Z.abs (Qnum q)) - Z.log2 (Z.pos (Qden q)) in
  if Qle_bool (pow2 e) (Qabs q) then e else e - 1.

(** The nearest integer, the even one of two that are equally near. *)
Definition nearest_even (x : Q) : Z :=
  let f := Qfloor x in
  match (x - inject_Z f ?= 1 # 2)%Q with
  | Lt => f
  | Gt => f + 1
  | Eq => if Z.even f then f else f + 1
  end.

(** The double nearest to [q]: 53 significant bits, and no exponent below
    [-1022].  Beyond the range of the exact integers, from [2^53] on, [q] is
    kept. *)
Definition binary64 (q : Q) : Q :=
  if Qeq_bool q 0 then 0%Q
  else if Qle_bool (inject_Z (2 ^ 53)) (Qabs q) then q
  else
    let e := Z.max (ilog2 q) (-1022) in
    let scale := inject_Z (2 ^ Z.max 0 (52 - e)) in
    (inject_Z (nearest_even (q * scale)) / scale)%Q.

(** ** The operators *)

Definition add (a b : num) : num :=
  match a, b with
  | NaN, _ | _, NaN => NaN
  | Fin x, Fin y => Fin (binary64 (x + y))
  | PInf, NInf | NInf, PInf => NaN
  | PInf, _ | _, PInf => PInf
  | NInf, _ | _, NInf => NInf
  end.

Definition sub (a b : num) : num := add a (neg b).

(** Sign of an infinite product or quotient. *)
Definition signed_inf (c : comparison) : num :=
  match c with
  | Eq => NaN
  | Gt => PInf
  | Lt => NInf
  end.

Definition mul (a b : num) : num :=
  match a, b with
  | NaN, _ | _, NaN => NaN
  | Fin x, Fin y => Fin (binary64 (x * y))
  | Fin x, PInf | PInf, Fin x => signed_inf (x ?= 0)%Q
  | Fin x, NInf | NInf, Fin x => signed_inf (CompOpp (x ?= 0)%Q)
  | PInf, PInf | NInf, NInf => PInf
  | PInf, NInf | NInf, PInf => NInf
  end.

(** Division; a zero divisor is [+0]. *)
Definition div (a b : num) : num :=
  match a, b with
  | NaN, _ | _, NaN => NaN
  | Fin x, Fin y =>
      if Qeq_bool y 0 then signed_inf (x ?= 0)%Q else Fin (binary64 (x / y))
  | Fin _, (PInf | NInf) => Fin 0
  | PInf, Fin y => match (y ?= 0)%Q with Lt => NInf | _ => PInf end
  | NInf, Fin y => match (y ?= 0)%Q with Lt => PInf | _ => NInf end
  | (PInf | NInf), (PInf | NInf) => NaN
  end.

(** [Math.round]: to the nearest integer, halves towards [+Infinity]. *)
Definition Math_round (a : num) : rounded :=
  match a with
  | Fin x => Int (Qfloor (x + (1 # 2)))
  | PInf => Infinity
  | NInf => NegInfinity
  | NaN => NotANumber
  end.

(** [r > n] for an integer literal [n]. *)
Definition gt (r : rounded) (n : Z) : bool :=
  match r with
  | Int z => n <? z
  | Infinity => true
  | NegInfinity | NotANumber => false
  end.

(** Truthiness of a number: [0] and [NaN] are falsy. *)
Definition truthy (r : rounded) : bool :=
  match r with
  | Int z => negb (z =? 0)
  | Infinity | NegInfinity => true
  | NotANumber => false
  end.

(** [String(r)]. *)
Definition toString (r : rounded) : string :=
  match r with
  | Int z => pretty z
  | Infinity => "Infinity"
  | NegInfinity => "-Infinity"
  | NotANumber => "NaN"
  end.

(** Two numbers that denote the same value. *)
Definition num_eq (a b : num) : Prop :=
  match a, b with
  | Fin x, Fin y => (x == y)%Q
  | PInf, PInf | NInf, NInf | NaN, NaN => True
  | _, _ => False
  end.

(** * ImageDrop *)

Module ImageDrop.

(** ** The host editor *)

(** What [quill.getSelection()] returns when there is a selection. *)
Record Range := { index : Z; len : Z }.

(** The three methods of the Quill instance that the module calls. *)
Class Quill (E : Type) := {
  getSelection : E -> option Range;
  getLength : E -> Z;
  insertEmbed : Z -> string -> string -> string -> E -> E;
}.

(** One call of [insertEmbed], as observed from outside. *)
Record Embed := {
  embed_index : Z;
  embed_type : string;
  embed_value : string;
  embed_source : string;
}.

(** ** Files *)

(** A blob is known by what a [FileReader] makes of it: [Some url] when
    [readAsDataURL] ends with a [load] event whose result is [url], [None]
    when the read fails (only [onload] is set, so nothing runs then). *)
Record Blob := { result : option string }.

(** An entry of [dataTransfer.files] is a [File], which is a [Blob] and has
    no [getAsFile]; an entry of [clipboardData.items] is a
    [DataTransferItem], whose [getAsFile()] gives a [File] or [null]. *)
Inductive entry :=
| FileEntry (type : string) (blob : Blob)
| ItemEntry (type : string) (file : option Blob).

Definition type (f : entry) : string :=
  match f with
  | FileEntry t _ => t
  | ItemEntry t _ => t
  end.

(** [file.getAsFile ? file.getAsFile() : file], kept when it is an instance
    of [Blob]. *)
Definition blob_of (f : entry) : option Blob :=
  match f with
  | FileEntry _ b => Some b
  | ItemEntry _ o => o
  end.

(** [/^image\/(gif|jpe?g|a?png|svg|webp|bmp|vnd\.microsoft\.icon)/i] *)
Definition image_re : regex :=
  Cat (lit "image/")
    (Alt (lit "gif")
    (Alt (Cat (lit "jp") (Cat (Opt (Chr "e")) (Chr "g")))
    (Alt (Cat (Opt (Chr "a")) (lit "png"))
    (Alt (lit "svg")
    (Alt (lit "webp")
    (Alt (lit "bmp")
         (lit "vnd.microsoft.icon"))))))).

Definition is_image (t : string) : bool := matches_at_start image_re t.

(** The words that the pattern spells out. *)
Definition accepted_prefixes : list string :=
  ["image/gif"; "image/jpeg"; "image/jpg"; "image/png"; "image/apng";
   "image/svg"; "image/webp"; "image/bmp"; "image/vnd.microsoft.icon"].

(** The data URL that [readFiles] hands to its callback for this entry, if
    it ever does: the type must match and the read must succeed. *)
Definition data_url (f : entry) : option string :=
  if is_image (type f) then blob_of f ≫= result else None.

(** ** Events *)

Record DataTransfer := { files : option (list entry) }.
Record DropEvent := { dataTransfer : option DataTransfer }.

Record ClipboardData := { items : option (list entry) }.
Record PasteEvent := { clipboardData : option ClipboardData }.

(** ** The event loop *)

(** The two functions handed to [readFiles]. *)
Inductive callback :=
| InsertCallback    (* this.insert.bind(this) *)
| PasteCallback.    (* the arrow function of handlePaste *)

(** The only function handed to [setTimeout]: [() => this.insert(dataUrl)]. *)
Inductive thunk :=
| InsertLater (dataUrl : string).

Section WithHost.
Context {E : Type} `{Quill E}.

Record world := {
  quill : E;
  embeds : list Embed;                (* insertEmbed calls so far *)
  reads : list (Blob * callback);     (* reads in flight *)
  timers : list (Z * thunk);          (* pending timeouts: delay, function *)
  defaultPrevented : bool;            (* of the event being handled *)
}.

Definition set_quill (q : E) (w : world) : world :=
  {| quill := q; embeds := embeds w; reads := reads w;
     timers := timers w; defaultPrevented := defaultPrevented w |}.

Definition set_reads (l : list (Blob * callback)) (w : world) : world :=
  {| quill := quill w; embeds := embeds w; reads := l;
     timers := timers w; defaultPrevented := defaultPrevented w |}.

Definition set_timers (l : list (Z * thunk)) (w : world) : world :=
  {| quill := quill w; embeds := embeds w; reads := reads w;
     timers := l; defaultPrevented := defaultPrevented w |}.

Definition preventDefault (w : world) : world :=
  {| quill := quill w; embeds := embeds w; reads := reads w;
     timers := timers w; defaultPrevented := true |}.

(** [this.quill.insertEmbed(index, type, value, source)] *)
Definition call_insertEmbed (i : Z) (t v src : string) (w : world) : world :=
  {| quill := insertEmbed i t v src (quill w);
     embeds := embeds w ++ [{| embed_index := i; embed_type := t;
                               embed_value := v; embed_source := src |}];
     reads := reads w; timers := timers w;
     defaultPrevented := defaultPrevented w |}.

(** [reader.readAsDataURL(blob)] with [reader.onload] calling [cb]. *)
Definition readAsDataURL (b : Blob) (cb : callback) (w : world) : world :=
  set_reads (reads w ++ [(b, cb)]) w.

Definition setTimeout (f : thunk) (delay : Z) (w : world) : world :=
  set_timers (timers w ++ [(delay, f)]) w.

(** ** The methods *)

(** [(this.quill.getSelection() || {}).index] *)
Definition selection_index (w : world) : option Z :=
  match getSelection (quill w) with
  | Some r => Some (index r)
  | None => None
  end.

(** [a || b] for an index [a] that may be [undefined]. *)
Definition or_else (a : option Z) (b : Z) : Z :=
  match a with
  | Some i => if i =? 0 then b else i
  | None => b
  end.

Definition insert (dataUrl : string) (w : world) : world :=
  let index := or_else (selection_index w) (getLength (quill w)) in
  call_insertEmbed index "image" dataUrl "user" w.

(** The body of the [forEach] of [readFiles]. *)
Definition readFile (cb : callback) (w : world) (file : entry) : world :=
  if negb (is_image (type file)) then w
  else
    match blob_of file with
    | Some blob => readAsDataURL blob cb w
    | None => w
    end.

Definition readFiles (fs : list entry) (cb : callback) (w : world) : world :=
  fold_left (readFile cb) fs w.

Definition handleDrop (evt : DropEvent) (w : world) : world :=
  let w := preventDefault w in
  match dataTransfer evt with
  | Some dt =>
      match files dt with
      | Some (f :: fs) => readFiles (f :: fs) InsertCallback w
      | _ => w
      end
  | None => w
  end.

Definition handlePaste (evt : PasteEvent) (w : world) : world :=
  match clipboardData evt with
  | Some cd =>
      match items cd with
      | Some (f :: fs) => readFiles (f :: fs) PasteCallback w
      | _ => w
      end
  | None => w
  end.

(** The arrow function that [handlePaste] gives to [readFiles]. *)
Definition paste_callback (dataUrl : string) (w : world) : world :=
  match getSelection (quill w) with
  | Some _ => w
  | None => setTimeout (InsertLater dataUrl) 0 w
  end.

Definition run_callback (cb : callback) (dataUrl : string) (w : world) : world :=
  match cb with
  | InsertCallback => insert dataUrl w
  | PasteCallback => paste_callback dataUrl w
  end.

Definition run_thunk (f : thunk) (w : world) : world :=
  match f with
  | InsertLater dataUrl => insert dataUrl w
  end.

(** ** Later turns of the event loop *)

(** The [i]-th read in flight ends: its [onload] runs when it succeeded. *)
Definition finish_read (i : nat) (w : world) : world :=
  match reads w !! i with
  | Some (b, cb) =>
      let w := set_reads (delete i (reads w)) w in
      match result b with
      | Some dataUrl => run_callback cb dataUrl w
      | None => w
      end
  | None => w
  end.

(** The [i]-th pending timeout fires. *)
Definition fire_timer (i : nat) (w : world) : world :=
  match timers w !! i with
  | Some (_, f) => run_thunk f (set_timers (delete i (timers w)) w)
  | None => w
  end.

(** One later turn: a read ends, a timeout fires, or the host editor
    changes on its own (typing, its native paste, a moved cursor). *)
Inductive turn : world -> world -> Prop :=
| turn_read w i : (i < List.length (reads w))%nat -> turn w (finish_read i w)
| turn_timer w i : (i < List.length (timers w))%nat -> turn w (fire_timer i w)
| turn_host w q : turn w (set_quill q w).

Inductive turns : world -> world -> Prop :=
| turns_refl w : turns w w
| turns_step w1 w2 w3 : turn w1 w2 -> turns w2 w3 -> turns w1 w3.

(** Nothing left to do for the module. *)
Definition quiescent (w : world) : Prop :=
  reads w = [] /\ timers w = [].

(** ** Reading a world *)

(** The read that [readFiles] starts for an entry, if any. *)
Definition started (cb : callback) (f : entry) : option (Blob * callback) :=
  if is_image (type f) then (fun b => (b, cb)) <$> blob_of f else None.

(** The data URLs that the reads in flight will still deliver. *)
Definition due (w : world) : list string :=
  omap (fun rc => result (fst rc)) (reads w).

(** Only drops are in progress: every read in flight ends in [insert],
    and no timeout is pending. *)
Definition drop_only (w : world) : Prop :=
  timers w = [] /\ Forall (fun rc => snd rc = InsertCallback) (reads w).

(** The data URLs that the pending timeouts will still insert. *)
Definition scheduled (w : world) : list string :=
  map (fun t => match snd t with InsertLater dataUrl => dataUrl end) (timers w).

(** The data URLs that the module may still insert. *)
Definition outstanding (w : world) : list string :=
  scheduled w ++ due w.

(** ** The listeners of the constructor *)

(** The constructor registers [handleDrop] for ['drop'] and [handlePaste]
    for ['paste'] on the editor root; these are the events that reach the
    module. *)
Inductive input :=
| Drop (evt : DropEvent)
| Paste (evt : PasteEvent).

Definition dispatch (i : input) (w : world) : world :=
  match i with
  | Drop evt => handleDrop evt w
  | Paste evt => handlePaste evt w
  end.

(** The entries that an event carries: [[]] when the payload is missing. *)
Definition payload (i : input) : list entry :=
  match i with
  | Drop evt => default [] (dataTransfer evt ≫= files)
  | Paste evt => default [] (clipboardData evt ≫= items)
  end.

(** A run of the page: events arrive between turns of the event loop. *)
Inductive session : world -> list input -> world -> Prop :=
| session_end w : session w [] w
| session_turn w1 w2 w3 ins :
    turn w1 w2 -> session w2 ins w3 -> session w1 ins w3
| session_input w1 w3 i ins :
    session (dispatch i w1) ins w3 -> session w1 (i :: ins) w3.

End WithHost.

(** An embed as [insert] makes it. *)
Definition image_by_user (e : Embed) : Prop :=
  embed_type e = "image" /\ embed_source e = "user".

Arguments world E : clear implicits.

(** ** A concrete host, to run the model *)

Record Editor := {
  selection : option Range;
  doc_length : Z;
}.

(** It records nothing of the embed: the calls are in [embeds]. *)
#[export] Instance Editor_Quill : Quill Editor := {
  getSelection := selection;
  getLength := doc_length;
  insertEmbed := fun _ _ _ _ e => e;
}.

(** An editor with nothing in flight. *)
Definition idle (e : Editor) : world Editor :=
  {| quill := e; embeds := []; reads := []; timers := [];
     defaultPrevented := false |}.

(** A document of length 5 with the cursor at its start, at position 3, or
    without a selection. *)
Definition cursor_at (i : Z) : Editor :=
  {| selection := Some {| index := i; len := 0 |}; doc_length := 5 |}.

Definition no_cursor : Editor :=
  {| selection := None; doc_length := 5 |}.

Definition png_url : string := "data:image/png;base64,iVBORw0KGgo=".

Definition readable_png : entry :=
  FileEntry "image/png" {| result := Some png_url |}.

Definition unreadable_png : entry :=
  FileEntry "image/png" {| result := None |}.

Definition pasted_png : entry :=
  ItemEntry "image/png" (Some {| result := Some png_url |}).

Definition drop_of (fs : list entry) : DropEvent :=
  {| dataTransfer := Some {| files := Some fs |} |}.

Definition paste_of (fs : list entry) : PasteEvent :=
  {| clipboardData := Some {| items := Some fs |} |}.

End ImageDrop.

(** * ImageResize *)

Module ImageResize.

(** ** The page *)

(** The nodes the module can meet.  An element made by
    [document.createElement] is never one that the page already had. *)
Inductive node :=
| Document                            (* document *)
| Html                                (* document.documentElement *)
| Body                                (* document.body *)
| Root                                (* quill.root *)
| Given (tag : string) (id : nat)     (* an element of the page *)
| Created (id : nat).                 (* document.createElement('div') *)

#[export] Instance node_eq_dec : EqDecision node.
Proof. solve_decision. Defined.

Definition tagName (n : node) : option string :=
  match n with
  | Document => None
  | Html => Some "HTML"
  | Body => Some "BODY"
  | Root => Some "DIV"
  | Given tag _ => Some tag
  | Created _ => Some "DIV"
  end.

Fixpoint toUpperCase (s : string) : string :=
  match s with
  | EmptyString => EmptyString
  | String c s' => String (canonicalize c) (toUpperCase s')
  end.

Record element := {
  style : gmap string string;   (* inline style; an absent property reads '' *)
  innerHTML : string;
  width : rounded;              (* of an <img> *)
  naturalWidth : N;
  naturalHeight : N;
}.

Record DOMRect := {
  rect_left : num;
  rect_top : num;
  rect_width : num;
  rect_height : num;
}.

(** The functions the module registers as listeners; each is bound once, in
    the constructor, so a name is an identity. *)
Inductive handler :=
| HandleClick
| HandleMousedown
| HandleMouseup
| HandleDrag
| CheckImage.

#[export] Instance handler_eq_dec : EqDecision handler.
Proof. solve_decision. Defined.

Record listener := {
  on_target : node;
  on_type : string;
  on_callback : handler;
  on_capture : bool;
}.

#[export] Instance listener_eq_dec : EqDecision listener.
Proof. solve_decision. Defined.

Record document := {
  elements : node -> element;
  childNodes : list node;         (* of document.body *)
  listeners : list listener;      (* of every target, in order of registration *)
  created : nat;                  (* elements made by createElement so far *)
  pageXOffset : num;              (* window.pageXOffset *)
  pageYOffset : num;              (* window.pageYOffset *)
  large_width : Z -> Z;           (* what an <img> reports as its width after
                                     an assignment beyond 2147483647 *)
}.

(** ** The instance *)

Record Options := {
  displaySize : bool;
  handleStyles : option (list (string * string));
  displayStyles : option (list (string * string));
}.

Record instance := {
  options : Options;
  img : option node;
  boxes : list node;
  dragBox : option node;
  dragStartX : option num;
  preDragWidth : option num;
  display : option node;
}.

Record state := {
  this : instance;
  doc : document;
}.

Record MouseEvent := {
  target : option node;
  clientX : num;
}.

(** ** Exceptions and the monad of a running handler *)

Inductive error :=
| TypeError         (* a property of undefined, or an argument that is no Node *)
| NotFoundError.    (* removeChild of a node that is not a child *)

Inductive result (A : Type) :=
| Ok (a : A)
| Throw (e : error).
Arguments Ok {A} a.
Arguments Throw {A} e.

Definition M (A : Type) : Type := state -> result A * state.

#[export] Instance M_ret : MRet M := fun A a s => (Ok a, s).

#[export] Instance M_bind : MBind M := fun A B f m s =>
  match m s with
  | (Ok a, s') => f a s'
  | (Throw e, s') => (Throw e, s')
  end.

Definition throw {A} (e : error) : M A := fun s => (Throw e, s).
Definition gets {A} (f : state -> A) : M A := fun s => (Ok (f s), s).
Definition modify (f : state -> state) : M unit := fun s => (Ok tt, f s).

(** [a.forEach(f)] *)
Fixpoint forEach {A} (f : A -> M unit) (l : list A) : M unit :=
  match l with
  | [] => mret tt
  | x :: l' => f x;; forEach f l'
  end.

(** [a.forEach((x, idx) => f(x, idx))], counting from [i]. *)
Fixpoint forEach_from {A} (i : nat) (f : A -> nat -> M unit) (l : list A) : M unit :=
  match l with
  | [] => mret tt
  | x :: l' => f x i;; forEach_from (S i) f l'
  end.

(** [o.p] for an object [o] that may be [undefined]. *)
Definition deref {A} (o : option A) : M A :=
  match o with
  | Some a => mret a
  | None => throw TypeError
  end.

(** ** Field updates *)

Definition with_this (f : instance -> instance) (s : state) : state :=
  {| this := f (this s); doc := doc s |}.

Definition with_doc (f : document -> document) (s : state) : state :=
  {| this := this s; doc := f (doc s) |}.

Definition set_img (v : option node) (t : instance) : instance :=
  {| options := options t; img := v; boxes := boxes t; dragBox := dragBox t;
     dragStartX := dragStartX t; preDragWidth := preDragWidth t;
     display := display t |}.

Definition set_boxes (v : list node) (t : instance) : instance :=
  {| options := options t; img := img t; boxes := v; dragBox := dragBox t;
     dragStartX := dragStartX t; preDragWidth := preDragWidth t;
     display := display t |}.

Definition set_dragBox (v : option node) (t : instance) : instance :=
  {| options := options t; img := img t; boxes := boxes t; dragBox := v;
     dragStartX := dragStartX t; preDragWidth := preDragWidth t;
     display := display t |}.

Definition set_dragStartX (v : option num) (t : instance) : instance :=
  {| options := options t; img := img t; boxes := boxes t; dragBox := dragBox t;
     dragStartX := v; preDragWidth := preDragWidth t; display := display t |}.

Definition set_preDragWidth (v : option num) (t : instance) : instance :=
  {| options := options t; img := img t; boxes := boxes t; dragBox := dragBox t;
     dragStartX := dragStartX t; preDragWidth := v; display := display t |}.

Definition set_display (v : option node) (t : instance) : instance :=
  {| options := options t; img := img t; boxes := boxes t; dragBox := dragBox t;
     dragStartX := dragStartX t; preDragWidth := preDragWidth t; display := v |}.

Definition set_elements (v : node -> element) (d : document) : document :=
  {| elements := v; childNodes := childNodes d; listeners := listeners d;
     created := created d; pageXOffset := pageXOffset d;
     pageYOffset := pageYOffset d; large_width := large_width d |}.

Definition set_childNodes (v : list node) (d : document) : document :=
  {| elements := elements d; childNodes := v; listeners := listeners d;
     created := created d; pageXOffset := pageXOffset d;
     pageYOffset := pageYOffset d; large_width := large_width d |}.

Definition set_listeners (v : list listener) (d : document) : document :=
  {| elements := elements d; childNodes := childNodes d; listeners := v;
     created := created d; pageXOffset := pageXOffset d;
     pageYOffset := pageYOffset d; large_width := large_width d |}.

Definition set_created (v : nat) (d : document) : document :=
  {| elements := elements d; childNodes := childNodes d;
     listeners := listeners d; created := v; pageXOffset := pageXOffset d;
     pageYOffset := pageYOffset d; large_width := large_width d |}.

Definition set_style (v : gmap string string) (e : element) : element :=
  {| style := v; innerHTML := innerHTML e; width := width e;
     naturalWidth := naturalWidth e; naturalHeight := naturalHeight e |}.

Definition set_innerHTML (v : string) (e : element) : element :=
  {| style := style e; innerHTML := v; width := width e;
     naturalWidth := naturalWidth e; naturalHeight := naturalHeight e |}.

Definition set_width (v : rounded) (e : element) : element :=
  {| style := style e; innerHTML := innerHTML e; width := v;
     naturalWidth := naturalWidth e; naturalHeight := naturalHeight e |}.

(** [n.p = v] for a property of the element [n]. *)
Definition update (n : node) (f : element -> element) (d : document) : document :=
  set_elements (<[n := f (elements d n)]> (elements d)) d.

(** ** The DOM *)

(** A new [div]: no inline style, no content. *)
Definition blank : element :=
  {| style := ∅; innerHTML := ""; width := Int 0;
     naturalWidth := 0; naturalHeight := 0 |}.

(** [document.createElement('div')] *)
Definition createElement : M node := fun s =>
  let n := Created (created (doc s)) in
  (Ok n, with_doc (fun d => set_created (S (created d))
                              (set_elements (<[n := blank]> (elements d)) d)) s).

(** [n.style[prop] = value]: the style keeps the value as it is assigned. *)
Definition setStyle (n : node) (prop value : string) : M unit :=
  modify (with_doc (update n (fun e => set_style (<[prop := value]> (style e)) e))).

(** The conversion of a number to [unsigned long]: modulo [2^32], and [0]
    for a value that is not finite. *)
Definition to_unsigned_long (r : rounded) : Z :=
  match r with
  | Int z => z mod 2 ^ 32
  | Infinity | NegInfinity | NotANumber => 0
  end.

(** What [img.width] reports after [img.width = r]: the converted value
    when it is at most [2147483647], and what the host makes of it
    otherwise. *)
Definition stored_width (d : document) (r : rounded) : rounded :=
  let n := to_unsigned_long r in
  Int (if n <=? 2147483647 then n else large_width d n).

(** [n.width = r] for an [<img>] *)
Definition setWidth (n : node) (r : rounded) : M unit :=
  modify (with_doc (fun d => update n (set_width (stored_width d r)) d)).

(** [n.style[prop]] *)
Definition getStyle (n : node) (prop : string) : M string :=
  gets (fun s => default "" (style (elements (doc s) n) !! prop)).

(** [document.body.appendChild(n)]: a node that is already a child moves to
    the end. *)
Definition appendChild (n : node) : M unit :=
  modify (with_doc (fun d =>
    set_childNodes (filter (fun c => c <> n) (childNodes d) ++ [n]) d)).

(** [document.body.removeChild(n)] *)
Definition removeChild (n : option node) : M unit :=
  match n with
  | None => throw TypeError
  | Some c => fun s =>
      if decide (c ∈ childNodes (doc s)) then
        modify (with_doc (fun d =>
          set_childNodes (filter (fun c' => c' <> c) (childNodes d)) d)) s
      else throw NotFoundError s
  end.

(** [t.addEventListener(type, f, capture)]: a listener with the same type,
    function and capture flag is not added twice. *)
Definition addEventListener (t : node) (type : string) (f : handler)
    (capture : bool) : M unit :=
  modify (with_doc (fun d =>
    let l := {| on_target := t; on_type := type; on_callback := f;
                on_capture := capture |} in
    if decide (l ∈ listeners d) then d
    else set_listeners (listeners d ++ [l]) d)).

(** [t.removeEventListener(type, f)]: without a third argument the capture
    flag is [false], and only a listener registered with that flag goes. *)
Definition removeEventListener (t : node) (type : string) (f : handler) : M unit :=
  modify (with_doc (fun d =>
    let l := {| on_target := t; on_type := type; on_callback := f;
                on_capture := false |} in
    set_listeners (filter (fun l' => l' <> l) (listeners d)) d)).

(** ** The methods *)

Section Methods.

(** The browser's layout: [n.getBoundingClientRect()] in a given page. *)
Variable getBoundingClientRect : document -> node -> DOMRect.

Definition boundingClientRect (n : node) : M DOMRect :=
  gets (fun s => getBoundingClientRect (doc s) n).

(** [extend(n.style, ...sources)]: every own property of every source,
    in order. *)
Definition extend (n : node) (sources : list (list (string * string))) : M unit :=
  forEach (fun source =>
    forEach (fun kv => setStyle n (fst kv) (snd kv)) source) sources.

Definition setUserSelect (value : string) : M unit :=
  forEach (fun prop =>
    setStyle Root prop value;;
    setStyle Html prop value)
  ["userSelect"; "mozUserSelect"; "webkitUserSelect"; "msUserSelect"].

Definition setCursor (value : string) : M unit :=
  i ← gets (fun s => img (this s));
  forEach (fun el : option node =>
    n ← deref el;
    setStyle n "cursor" value)
  [Some Body; i; Some Root].

Definition addBox (cursor : string) : M unit :=
  box ← createElement;
  let styles :=
    [("position", "absolute"); ("height", "12px"); ("width", "12px");
     ("backgroundColor", "white"); ("border", "1px solid #777");
     ("boxSizing", "border-box"); ("opacity", "0.80"); ("cursor", cursor)] in
  hs ← gets (fun s => handleStyles (options (this s)));
  extend box [styles; default [] hs];;
  addEventListener box "mousedown" HandleMousedown false;;
  appendChild box;;
  modify (with_this (fun t => set_boxes (boxes t ++ [box]) t)).

Definition px (x : num) : string := toString (Math_round x) ++ "px".

Definition positionBoxes (rect : DOMRect) : M unit :=
  let six := Fin 6 in
  forEach_from 0 (fun (pos : num * num) idx =>
    b ← gets (fun s => boxes (this s) !! idx);
    box ← deref b;
    pageY ← gets (fun s => pageYOffset (doc s));
    pageX ← gets (fun s => pageXOffset (doc s));
    extend box [[("top", px (add (snd pos) pageY));
                 ("left", px (add (fst pos) pageX))]])
  [ (sub (rect_left rect) six, sub (rect_top rect) six);
    (sub (add (rect_left rect) (rect_width rect)) six,
     sub (rect_top rect) six);
    (sub (add (rect_left rect) (rect_width rect)) six,
     sub (add (rect_top rect) (rect_height rect)) six);
    (sub (rect_left rect) six,
     sub (add (rect_top rect) (rect_height rect)) six) ].

Definition getCurrentSize : M (rounded * rounded) :=
  i ← gets (fun s => img (this s)) ≫= deref;
  e ← gets (fun s => elements (doc s) i);
  mret (width e,
        Math_round (mul (div (of_rounded (width e)) (of_N (naturalWidth e)))
                        (of_N (naturalHeight e)))).

Definition showSizeDisplay : M unit :=
  ds ← gets (fun s => displaySize (options (this s)));
  if negb ds then mret tt
  else
    d ← createElement;
    modify (with_this (set_display (Some d)));;
    let styles :=
      [("position", "absolute");
       ("font", "12px/1.0 Arial, Helvetica, sans-serif");
       ("padding", "4px 8px"); ("textAlign", "center");
       ("backgroundColor", "white"); ("color", "#333");
       ("border", "1px solid #777"); ("boxSizing", "border-box");
       ("opacity", "0.80"); ("cursor", "default")] in
    ds ← gets (fun s => displayStyles (options (this s)));
    extend d [styles; default [] ds];;
    appendChild d.

Definition hideSizeDisplay : M unit :=
  d ← gets (fun s => display (this s));
  removeChild d;;
  modify (with_this (set_display None)).

Definition positionSizeDisplay (rect : DOMRect) : M unit :=
  d ← gets (fun s => display (this s));
  i ← gets (fun s => img (this s));
  match d, i with
  | Some d, Some _ =>
      size ← getCurrentSize;
      modify (with_doc (update d (set_innerHTML
        (toString (fst size) ++ " &times; " ++ toString (snd size)))));;
      pageX ← gets (fun s => pageXOffset (doc s));
      pageY ← gets (fun s => pageYOffset (doc s));
      let right := add (add (rect_left rect) (rect_width rect)) pageX in
      let bottom := add (add (rect_top rect) (rect_height rect)) pageY in
      if gt (fst size) 120 && gt (snd size) 30 then
        dispRect ← boundingClientRect d;
        extend d [[("left", px (sub (sub right (rect_width dispRect)) (Fin 8)));
                   ("top", px (sub (sub bottom (rect_height dispRect)) (Fin 8)))]]
      else
        extend d [[("left", px (add right (Fin 8)));
                   ("top", px (add bottom (Fin 8)))]]
  | _, _ => mret tt
  end.

Definition showResizers : M unit :=
  setUserSelect "none";;
  addBox "nwse-resize";;
  addBox "nesw-resize";;
  addBox "nwse-resize";;
  addBox "nesw-resize";;
  addEventListener Document "keyup" CheckImage true;;
  addEventListener Root "input" CheckImage true.

Definition hideResizers : M unit :=
  removeEventListener Document "keyup" CheckImage;;
  removeEventListener Root "input" CheckImage;;
  setUserSelect "";;
  setCursor "";;
  bs ← gets (fun s => boxes (this s));
  forEach (fun box => removeChild (Some box)) bs;;
  modify (with_this (set_dragBox None));;
  modify (with_this (set_dragStartX None));;
  modify (with_this (set_preDragWidth None));;
  modify (with_this (set_boxes [])).

Definition show (i : node) : M unit :=
  modify (with_this (set_img (Some i)));;
  showResizers;;
  showSizeDisplay;;
  i ← gets (fun s => img (this s)) ≫= deref;
  rect ← boundingClientRect i;
  positionBoxes rect;;
  positionSizeDisplay rect.

Definition hide : M unit :=
  hideResizers;;
  hideSizeDisplay;;
  modify (with_this (set_img None)).

(** [evt.target && evt.target.tagName &&
     evt.target.tagName.toUpperCase() == 'IMG'] *)
Definition is_IMG (t : option node) : bool :=
  match t with
  | Some n =>
      match tagName n with
      | Some tag => bool_decide (tag <> "") && bool_decide (toUpperCase tag = "IMG")
      | None => false
      end
  | None => false
  end.

Definition handleClick (evt : MouseEvent) : M unit :=
  i ← gets (fun s => img (this s));
  if is_IMG (target evt) then
    if decide (i = target evt) then mret tt
    else
      (if decide (i <> None) then hide else mret tt);;
      t ← deref (target evt);
      show t
  else if decide (i <> None) then hide
  else mret tt.

Definition handleMousedown (evt : MouseEvent) : M unit :=
  modify (with_this (set_dragBox (target evt)));;
  modify (with_this (set_dragStartX (Some (clientX evt))));;
  i ← gets (fun s => img (this s)) ≫= deref;
  e ← gets (fun s => elements (doc s) i);
  modify (with_this (set_preDragWidth (Some
    (if truthy (width e) then of_rounded (width e) else of_N (naturalWidth e)))));;
  box ← gets (fun s => dragBox (this s)) ≫= deref;
  cursor ← getStyle box "cursor";
  setCursor cursor;;
  addEventListener Document "mousemove" HandleDrag false;;
  addEventListener Document "mouseup" HandleMouseup false.

Definition handleMouseup : M unit :=
  setCursor "";;
  removeEventListener Document "mousemove" HandleDrag;;
  removeEventListener Document "mouseup" HandleMouseup.

Definition handleDrag (evt : MouseEvent) : M unit :=
  o ← gets (fun s => img (this s));
  match o with
  | None => mret tt
  | Some i =>
      t ← gets this;
      let pre := to_num (preDragWidth t) in
      let start := to_num (dragStartX t) in
      (if bool_decide (dragBox t = boxes t !! 0%nat)
          || bool_decide (dragBox t = boxes t !! 3%nat)
       then
         setWidth i (Math_round (sub (sub pre (clientX evt)) start))
       else
         setWidth i (Math_round (sub (add pre (clientX evt)) start)));;
      i ← gets (fun s => img (this s)) ≫= deref;
      rect ← boundingClientRect i;
      positionBoxes rect;;
      positionSizeDisplay rect
  end.

Definition checkImage : M unit :=
  i ← gets (fun s => img (this s));
  if decide (i <> None) then hide else mret tt.

(** [new ImageResize(quill, options)] in the page [d]. *)
Definition constructor (opts : Options) (d : document) : state :=
  snd (addEventListener Root "click" HandleClick false
    {| this := {| options := opts; img := None; boxes := [];
                  dragBox := None; dragStartX := None;
                  preDragWidth := None; display := None |};
       doc := d |}).

End Methods.

(** ** Reading a state *)

(** [m] relates every state to the one it leaves, whatever the outcome. *)
Definition keeps {A} (R : state -> state -> Prop) (m : M A) : Prop :=
  forall s, R s (snd (m s)).

(** The [width] of every element is as before. *)
Definition same_widths (s s' : state) : Prop :=
  forall n, width (elements (doc s') n) = width (elements (doc s) n).

(** The selected image, the size display and the options are as before. *)
Definition same_selection (s s' : state) : Prop :=
  img (this s') = img (this s) /\ display (this s') = display (this s)
  /\ options (this s') = options (this s).

(** Every listener registered for the capture phase is still there. *)
Definition capture_listeners_stay (s s' : state) : Prop :=
  forall l, on_capture l = true ->
            l ∈ listeners (doc s) -> l ∈ listeners (doc s').

(** What [handleDrag] assigns to [this.img.width]. *)
Definition dragged_width (t : instance) (x : num) : rounded :=
  let pre := to_num (preDragWidth t) in
  let start := to_num (dragStartX t) in
  if bool_decide (dragBox t = boxes t !! 0%nat)
     || bool_decide (dragBox t = boxes t !! 3%nat)
  then Math_round (sub (sub pre x) start)
  else Math_round (sub (add pre x) start).

(** The listeners of a selection and of a drag. *)
Definition keyup_listener : listener :=
  {| on_target := Document; on_type := "keyup";
     on_callback := CheckImage; on_capture := true |}.

Definition input_listener : listener :=
  {| on_target := Root; on_type := "input";
     on_callback := CheckImage; on_capture := true |}.

Definition mousemove_listener : listener :=
  {| on_target := Document; on_type := "mousemove";
     on_callback := HandleDrag; on_capture := false |}.

Definition mouseup_listener : listener :=
  {| on_target := Document; on_type := "mouseup";
     on_callback := HandleMouseup; on_capture := false |}.

(** [e.style.cursor = ''] *)
Definition cursor_reset (e : element) : element :=
  set_style (<["cursor" := ""]> (style e)) e.

(** Everything of a state but the elements' own properties: the fields of
    the instance, the children of the body and the number of elements
    created. *)
Definition structure (s : state) : instance * list node * nat :=
  (this s, childNodes (doc s), created (doc s)).

(** [m] returns whenever the structure satisfies [P], and changes nothing
    of the structure. *)
Definition styles_only (P : instance * list node * nat -> Prop) (m : M unit) : Prop :=
  forall s, P (structure s) ->
    exists s', m s = (Ok tt, s') /\ structure s' = structure s.

(** The elements that the module has put into the document. *)
Definition is_created (n : node) : Prop :=
  match n with
  | Created _ => True
  | _ => False
  end.

#[export] Instance is_created_dec n : Decision (is_created n).
Proof. destruct n; cbn; apply _. Defined.

(** The overlay elements that the instance holds: the handles and the size
    display. *)
Definition overlays (t : instance) : list node :=
  boxes t ++ option_list (display t).

(** No element of the document has an identity that [createElement] has
    yet to hand out. *)
Definition fresh_ids (d : document) : Prop :=
  forall j, Created j ∈ childNodes d -> (j < created d)%nat.

(** The overlays in the document are those of the instance, each once;
    there are none when no image is selected, and four handles and a size
    display when one is. *)
Record consistent (s : state) : Prop := {
  consistent_fresh : fresh_ids (doc s);
  consistent_overlays :
    filter is_created (childNodes (doc s)) = overlays (this s);
  consistent_NoDup : NoDup (overlays (this s));
  consistent_selection :
    match img (this s) with
    | None => boxes (this s) = [] /\ display (this s) = None
    | Some _ => List.length (boxes (this s)) = 4%nat /\ display (this s) <> None
    end;
}.

(** The handles, the size display, the selected image, the options and the
    children of the body are as before. *)
Definition same_overlays (s s' : state) : Prop :=
  img (this s') = img (this s) /\ boxes (this s') = boxes (this s)
  /\ display (this s') = display (this s)
  /\ options (this s') = options (this s)
  /\ childNodes (doc s') = childNodes (doc s)
  /\ created (doc s') = created (doc s).

(** The events that the module listens to. *)
Inductive event :=
| Click (evt : MouseEvent)        (* click inside the editor root *)
| Mousedown (evt : MouseEvent)    (* mousedown on a handle *)
| Mousemove (evt : MouseEvent)    (* mousemove during a drag *)
| Mouseup                         (* mouseup during a drag *)
| Keyup                           (* keyup while an image is selected *)
| Input.                          (* input while an image is selected *)

(** The listener that an event calls. *)
Definition handle (layout : document -> node -> DOMRect) (ev : event) : M unit :=
  match ev with
  | Click evt => handleClick layout evt
  | Mousedown evt => handleMousedown evt
  | Mousemove evt => handleDrag layout evt
  | Mouseup => handleMouseup
  | Keyup => checkImage
  | Input => checkImage
  end.

(** A sequence of events, each handled in the state that the one before
    left, whether its listener returned or raised.  Whether the listener is
    registered when the event comes is not looked at: every run of the page
    is among these. *)
Definition handle_all (layout : document -> node -> DOMRect)
    (evs : list event) (s : state) : state :=
  fold_left (fun s ev => snd (handle layout ev s)) evs s.

(** ** A page to run the model on *)

Definition imgA : node := Given "IMG" 0.
Definition imgB : node := Given "img" 1.

Definition picture (w : Z) (nw nh : N) : element :=
  {| style := ∅; innerHTML := ""; width := Int w;
     naturalWidth := nw; naturalHeight := nh |}.

(** Two images in the editor, 200 and 100 pixels wide; nothing scrolled;
    a width beyond 2147483647 is reported as it is, as jsdom does. *)
Definition page : document :=
  {| elements := fun n =>
       if decide (n = imgA) then picture 200 400 300
       else if decide (n = imgB) then picture 100 100 50
       else blank;
     childNodes := [Root];
     listeners := [];
     created := 0;
     pageXOffset := Fin 0;
     pageYOffset := Fin 0;
     large_width := fun n => n |}.

(** A layout in which every element starts at (10, 20), is as wide as its
    [width] says and 150 pixels high. *)
Definition flat_layout (d : document) (n : node) : DOMRect :=
  {| rect_left := Fin 10; rect_top := Fin 20;
     rect_width := of_rounded (width (elements d n));
     rect_height := Fin 150 |}.

Definition with_displaySize (b : bool) : Options :=
  {| displaySize := b; handleStyles := None; displayStyles := None |}.

Definition click (n : node) : MouseEvent :=
  {| target := Some n; clientX := Fin 0 |}.

Definition mouse_at (n : node) (x : Z) : MouseEvent :=
  {| target := Some n; clientX := Fin (inject_Z x) |}.

(** The module is set up and the first image is clicked. *)
Definition selected (b : bool) : state :=
  snd (handleClick flat_layout (click imgA)
         (constructor (with_displaySize b) page)).

(** Then the top left handle is pressed at [x = 100]. *)
Definition dragging (b : bool) : state :=
  snd (handleMousedown (mouse_at (Created 0) 100) (selected b)).

(** ** More ways to read a state *)

(** The fields of the instance are as before. *)
Definition same_instance (s s' : state) : Prop := this s' = this s.

(** The registered listeners are as before. *)
Definition same_listeners (s s' : state) : Prop :=
  listeners (doc s') = listeners (doc s).

(** The listeners of a drag that were registered still are. *)
Definition drag_listeners_stay (s s' : state) : Prop :=
  forall l, l = mousemove_listener \/ l = mouseup_listener ->
            l ∈ listeners (doc s) -> l ∈ listeners (doc s').

(** A handle as [addBox] styles it when the options name no styles: a
    square of 12 pixels that is positioned absolutely and shows the cursor
    [c]. *)
Definition handle_style (c : string) (e : element) : Prop :=
  style e !! "cursor" = Some c
  /\ style e !! "position" = Some "absolute"
  /\ style e !! "width" = Some "12px"
  /\ style e !! "height" = Some "12px".

(** The style properties that [setUserSelect] assigns. *)
Definition user_select_properties : list string :=
  ["userSelect"; "mozUserSelect"; "webkitUserSelect"; "msUserSelect"].

(** Each of them has the value [v] on the editor root and on the document
    element. *)
Definition user_select (v : string) (s : state) : Prop :=
  forall prop n, prop ∈ user_select_properties -> n ∈ [Root; Html] ->
    style (elements (doc s) n) !! prop = Some v.

(** Each of them is as before on both elements. *)
Definition user_select_stays (s s' : state) : Prop :=
  forall prop n, prop ∈ user_select_properties -> n ∈ [Root; Html] ->
    style (elements (doc s') n) !! prop = style (elements (doc s) n) !! prop.

(** ** A page with a banner

    The first image is 122 pixels wide and 184 by 46 pixels by nature, so
    that its height at this width is half a pixel over 30. *)
Definition banner_page : document :=
  update imgA (fun _ => picture 122 184 46) page.

Definition banner_selected : state :=
  snd (handleClick flat_layout (click imgA)
         (constructor (with_displaySize true) banner_page)).

End ImageResize.

(** * Properties of ImageDrop *)

Local Open Scope list_scope.

Module ImageDropProofs.
Import ImageDrop.

Section WithHost.
Context {E : Type} `{Quill E}.
Implicit Types (w : world E) (f : entry) (cb : callback).

Lemma readFiles_reads (fs : list entry) cb w :
  readFiles fs cb w = set_reads (reads w ++ omap (started cb) fs) w.
Proof.
  revert w. induction fs as [|f fs IH]; intros w.
  - cbn. rewrite app_nil_r. by destruct w.
  - cbn [readFiles fold_left]. fold (readFiles fs cb (readFile cb w f)).
    rewrite IH. unfold readFile, started at 2. cbn [omap list_omap].
    fold (started cb).
    destruct (is_image (type f)); cbn [negb]; [|done].
    destruct (blob_of f) as [b|]; cbn; [|done].
    unfold set_reads. cbn. by rewrite <- app_assoc.
Qed.

Lemma insert_embeds url w :
  exists i, embeds (insert url w)
            = embeds w ++ [{| embed_index := i; embed_type := "image";
                              embed_value := url; embed_source := "user" |}].
Proof. eexists. reflexivity. Qed.

Lemma insert_reads url w : reads (insert url w) = reads w.
Proof. reflexivity. Qed.

Lemma insert_timers url w : timers (insert url w) = timers w.
Proof. reflexivity. Qed.

Lemma due_delete w i b cb :
  reads w !! i = Some (b, cb) ->
  due w ≡ₚ option_list (result b) ++ omap (fun rc => result (fst rc)) (delete i (reads w)).
Proof.
  intros Hi. unfold due. rewrite (delete_Permutation _ _ _ Hi) at 1.
  cbn. by destruct (result b).
Qed.

(** One turn of a drop in progress. *)
Lemma turn_drop_only w w' :
  drop_only w -> turn w w' ->
  drop_only w' /\
  exists new, embeds w' = embeds w ++ new
              /\ map embed_value new ++ due w' ≡ₚ due w
              /\ Forall image_by_user new.
Proof.
  intros [Ht Hr] Hturn. destruct Hturn as [w i Hi|w i Hi|w q].
  - destruct (lookup_lt_is_Some_2 _ _ Hi) as [[b cb] Hrc].
    assert (cb = InsertCallback) as ->
      by exact (proj1 (Forall_lookup _ _) Hr _ _ Hrc).
    pose proof (due_delete _ _ _ _ Hrc) as Hdue.
    unfold finish_read. rewrite Hrc.
    destruct (result b) as [url|]; cbn [option_list app] in Hdue.
    + split; [split; [done | by apply Forall_delete]|].
      eexists [_]. split; [reflexivity|]. split.
      * cbn. by rewrite Hdue.
      * repeat constructor.
    + split; [split; [done | by apply Forall_delete]|].
      exists []. split; [by rewrite app_nil_r|]. split; [by rewrite Hdue|done].
  - rewrite Ht in Hi. cbn in Hi. lia.
  - split; [done|]. exists []. by rewrite app_nil_r.
Qed.

Lemma turns_drop_only w w' :
  drop_only w -> turns w w' ->
  drop_only w' /\
  exists new, embeds w' = embeds w ++ new
              /\ map embed_value new ++ due w' ≡ₚ due w
              /\ Forall image_by_user new.
Proof.
  intros Hw Hturns. induction Hturns as [w|w1 w2 w3 Hstep _ IH].
  - split; [done|]. exists []. by rewrite app_nil_r.
  - destruct (turn_drop_only _ _ Hw Hstep) as (Hw2 & new1 & He1 & Hp1 & Hf1).
    destruct (IH Hw2) as (Hw3 & new2 & He2 & Hp2 & Hf2).
    split; [done|]. exists (new1 ++ new2). split; [|split].
    + by rewrite He2, He1, app_assoc.
    + rewrite map_app, <- app_assoc, Hp2. done.
    + by apply Forall_app.
Qed.

(** Every world settles: the reads end, then the timeouts fire. *)
Lemma reads_end w : exists w', turns w w' /\ reads w' = [].
Proof.
  remember (List.length (reads w)) as n eqn:Hn. revert w Hn.
  induction n as [|n IH]; intros w Hn.
  - exists w. split; [constructor|]. by destruct (reads w).
  - destruct (IH (finish_read 0 w)) as (w' & Hturns & Hr).
    + unfold finish_read. destruct (reads w) as [|[b cb] l] eqn:Hl; [done|].
      cbn in Hn. cbn.
      destruct (result b), cb; cbn; try unfold paste_callback; cbn;
        try destruct (getSelection _); cbn; lia.
    + exists w'. split; [|done].
      eapply turns_step; [|exact Hturns]. apply turn_read. lia.
Qed.

Lemma settles w : exists w', turns w w' /\ quiescent w'.
Proof.
  assert (forall n w, reads w = [] -> List.length (timers w) = n ->
            exists w', turns w w' /\ quiescent w') as Htimers.
  { induction n as [|n IH]; intros w0 Hr Hn.
    - exists w0. split; [constructor|]. split; [done|]. by destruct (timers w0).
    - destruct (IH (fire_timer 0 w0)) as (w' & Hturns & Hq).
      + unfold fire_timer. destruct (timers w0) as [|[d [url]] l]; [done|]. done.
      + unfold fire_timer. destruct (timers w0) as [|[d [url]] l]; [done|].
        cbn in Hn. cbn. lia.
      + exists w'. split; [|done].
        eapply turns_step; [|exact Hturns]. apply turn_timer. lia. }
  destruct (reads_end w) as (w1 & Hturns1 & Hr1).
  destruct (Htimers _ w1 Hr1 eq_refl) as (w2 & Hturns2 & Hq).
  exists w2. split; [|done].
  clear -Hturns1 Hturns2. induction Hturns1; [done|].
  eapply turns_step; eauto.
Qed.

Lemma handleDrop_reads (fs : list entry) w :
  handleDrop {| dataTransfer := Some {| files := Some fs |} |} w
  = set_reads (reads w ++ omap (started InsertCallback) fs) (preventDefault w).
Proof.
  unfold handleDrop. cbn [dataTransfer files]. destruct fs as [|f fs].
  - cbn. by rewrite app_nil_r.
  - by rewrite readFiles_reads.
Qed.

Lemma due_started (fs : list entry) cb :
  omap (fun rc : Blob * callback => result (fst rc)) (omap (started cb) fs)
  = omap data_url fs.
Proof.
  induction fs as [|f fs IH]; [done|].
  cbn. unfold started at 1, data_url at 1.
  destruct (is_image (type f)); [|done].
  destruct (blob_of f) as [b|]; cbn; [|done].
  destruct (result b); cbn; by rewrite IH.
Qed.

(** Dropping files: in the end one embed per file that is an image and
    could be read, in some order. *)
Lemma drop_files (w0 : world E) (fs : list entry) w :
  quiescent w0 ->
  turns (handleDrop {| dataTransfer := Some {| files := Some fs |} |} w0) w ->
  quiescent w ->
  exists new, embeds w = embeds w0 ++ new
              /\ map embed_value new ≡ₚ omap data_url fs
              /\ Forall image_by_user new.
Proof.
  intros [Hr0 Ht0] Hturns [Hr _]. rewrite handleDrop_reads in Hturns.
  apply turns_drop_only in Hturns as (_ & new & He & Hp & Hf).
  - exists new. split; [done|]. split; [|done].
    unfold due in Hp. rewrite Hr in Hp. cbn in Hp. rewrite app_nil_r in Hp.
    rewrite Hr0 in Hp. cbn in Hp. by rewrite due_started in Hp.
  - split; [done|]. cbn. rewrite Hr0. cbn.
    clear. induction fs as [|f fs IH]; [constructor|].
    cbn. unfold started at 1. destruct (is_image (type f)); [|done].
    destruct (blob_of f); cbn; [|done]. by constructor.
Qed.

(** C5, amended: one file is dropped while nothing else is in flight.
    The event loop always settles, and whenever it has, exactly one
    [insertEmbed] call was made, with the file's data URL as value, if
    the type of the file matches the pattern and its read succeeded;
    otherwise (another type, or a read that failed) none was made.
    Nothing in [readFiles] raises. *)
Theorem drop_one_file (w0 : world E) f :
  quiescent w0 ->
  let w1 := handleDrop {| dataTransfer := Some {| files := Some [f] |} |} w0 in
  (exists w, turns w1 w /\ quiescent w) /\
  forall w, turns w1 w -> quiescent w ->
    match data_url f with
    | Some url =>
        exists i, embeds w = embeds w0 ++
          [{| embed_index := i; embed_type := "image";
              embed_value := url; embed_source := "user" |}]
    | None => embeds w = embeds w0
    end.
Proof.
  intros Hq0 w1. split; [apply settles|]. intros w Hturns Hq.
  destruct (drop_files _ _ _ Hq0 Hturns Hq) as (new & He & Hp & Hf).
  cbn in Hp. destruct (data_url f) as [url|].
  - apply Permutation_singleton_r in Hp.
    destruct new as [|[i t v src] [|]]; try discriminate.
    injection Hp as ->. apply Forall_inv in Hf as [Ht Hs]. cbn in Ht, Hs.
    subst. by exists i.
  - apply Permutation_nil_r in Hp. destruct new; [|done].
    by rewrite app_nil_r in He.
Qed.

(** ** Paste *)

Lemma handlePaste_reads (fs : list entry) w :
  handlePaste {| clipboardData := Some {| items := Some fs |} |} w
  = set_reads (reads w ++ omap (started PasteCallback) fs) w.
Proof.
  unfold handlePaste. cbn [clipboardData items]. destruct fs as [|f fs].
  - cbn. rewrite app_nil_r. by destruct w.
  - by rewrite readFiles_reads.
Qed.

(** C6: a paste carries one image item.  [handlePaste] only starts the
    read.  When the read completes, with the host in any state [q], the
    handler inserts nothing; if [getSelection()] is then non-null nothing
    is scheduled either, and if it is null one timeout of delay [0] is
    queued, which, when it fires in a later turn (the host in any state
    [q']), makes exactly one [insertEmbed] call with the data URL. *)
Theorem paste_one_image (w0 : world E) item b url (q : E) :
  is_image (type item) = true ->
  blob_of item = Some b ->
  result b = Some url ->
  let w1 := handlePaste {| clipboardData := Some {| items := Some [item] |} |} w0 in
  let w2 := finish_read (List.length (reads w0)) (set_quill q w1) in
  (reads w1 = reads w0 ++ [(b, PasteCallback)]
   /\ embeds w1 = embeds w0 /\ timers w1 = timers w0) /\
  (embeds w2 = embeds w0 /\ reads w2 = reads w0) /\
  match getSelection q with
  | Some _ => timers w2 = timers w0
  | None =>
      timers w2 = timers w0 ++ [(0, InsertLater url)] /\
      forall q',
        let w3 := fire_timer (List.length (timers w0)) (set_quill q' w2) in
        timers w3 = timers w0 /\
        exists i, embeds w3 = embeds w0 ++
          [{| embed_index := i; embed_type := "image";
              embed_value := url; embed_source := "user" |}]
  end.
Proof.
  intros Himg Hblob Hres w1 w2.
  assert (w1 = set_reads (reads w0 ++ [(b, PasteCallback)]) w0) as Hw1.
  { subst w1. rewrite handlePaste_reads. cbn. unfold started.
    by rewrite Himg, Hblob. }
  assert (finish_read (List.length (reads w0)) (set_quill q w1)
          = paste_callback url (set_quill q w0)) as Hw2.
  { rewrite Hw1. unfold finish_read. cbn [reads set_quill set_reads].
    rewrite list_lookup_middle by done. rewrite Hres.
    unfold set_reads at 1. cbn [reads quill embeds timers defaultPrevented].
    rewrite (delete_middle (reads w0) [] (b, PasteCallback)), app_nil_r.
    reflexivity. }
  subst w2. rewrite Hw2. split; [by rewrite Hw1|].
  unfold paste_callback. cbn [quill set_quill].
  destruct (getSelection q) as [r|]; [done|].
  split; [done|]. split; [done|]. intros q'. cbn.
  unfold fire_timer. cbn [timers set_quill setTimeout set_timers].
  rewrite list_lookup_middle by done.
  rewrite (delete_middle (timers w0) [] (0, InsertLater url)), app_nil_r.
  split; [done|]. eexists. reflexivity.
Qed.

(** ** Where [insert] puts the image *)

Lemma insert_with_selection url w r :
  getSelection (quill w) = Some r -> index r <> 0 ->
  embeds (insert url w) = embeds w ++
    [{| embed_index := index r; embed_type := "image";
        embed_value := url; embed_source := "user" |}].
Proof.
  intros Hsel Hr. unfold insert, selection_index. rewrite Hsel. cbn.
  by destruct (Z.eqb_spec (index r) 0).
Qed.

Lemma insert_without_selection url w :
  getSelection (quill w) = None ->
  embeds (insert url w) = embeds w ++
    [{| embed_index := getLength (quill w); embed_type := "image";
        embed_value := url; embed_source := "user" |}].
Proof. intros Hsel. unfold insert, selection_index. by rewrite Hsel. Qed.

Lemma insert_with_selection_at_zero url w r :
  getSelection (quill w) = Some r -> index r = 0 ->
  embeds (insert url w) = embeds w ++
    [{| embed_index := getLength (quill w); embed_type := "image";
        embed_value := url; embed_source := "user" |}].
Proof.
  intros Hsel Hr. unfold insert, selection_index. rewrite Hsel, Hr. done.
Qed.

(** ** Any payload, any number of entries *)

Lemma handleDrop_payload (evt : DropEvent) w :
  handleDrop evt w
  = set_reads (reads w ++ omap (started InsertCallback) (payload (Drop evt)))
      (preventDefault w).
Proof.
  destruct evt as [[[[[|f fs]|]]|]]; cbn [payload dataTransfer files mbind
    option_bind default omap list_omap]; unfold handleDrop; cbn [dataTransfer files].
  - by rewrite app_nil_r.
  - by rewrite readFiles_reads.
  - by rewrite app_nil_r.
  - by rewrite app_nil_r.
Qed.

Lemma handlePaste_payload (evt : PasteEvent) w :
  handlePaste evt w
  = set_reads (reads w ++ omap (started PasteCallback) (payload (Paste evt))) w.
Proof.
  destruct evt as [[[[[|f fs]|]]|]]; cbn [payload clipboardData items mbind
    option_bind default omap list_omap]; unfold handlePaste; cbn [clipboardData items].
  - rewrite app_nil_r. by destruct w.
  - by rewrite readFiles_reads.
  - rewrite app_nil_r. by destruct w.
  - rewrite app_nil_r. by destruct w.
Qed.

(** X1: any number of files is dropped while nothing else is in flight.
    The event loop always settles, and whenever it has, the [insertEmbed]
    calls made since the drop are one for each file whose type matches the
    pattern and whose read succeeded, in some order (the reads may end in
    any order), each of type ['image'] with source ['user'] and the file's
    data URL as value. *)
Theorem drop_many_files (w0 : world E) (fs : list entry) :
  quiescent w0 ->
  let w1 := handleDrop {| dataTransfer := Some {| files := Some fs |} |} w0 in
  (exists w, turns w1 w /\ quiescent w) /\
  forall w, turns w1 w -> quiescent w ->
    exists new, embeds w = embeds w0 ++ new
                /\ map embed_value new ≡ₚ omap data_url fs
                /\ Forall image_by_user new.
Proof.
  intros Hq0 w1. split; [apply settles|]. intros w Hturns Hq.
  exact (drop_files _ _ _ Hq0 Hturns Hq).
Qed.

(** X2: [handleDrop] always prevents the default action, also when the
    event has no [dataTransfer], no [files] or an empty list; it inserts
    and schedules nothing itself and leaves the editor alone: all it does is
    start, in the order of the list, one read for each entry whose type
    matches the pattern, with [insert] as callback. *)
Theorem handleDrop_starts_reads (evt : DropEvent) w :
  let w' := handleDrop evt w in
  defaultPrevented w' = true
  /\ quill w' = quill w /\ embeds w' = embeds w /\ timers w' = timers w
  /\ reads w'
     = reads w ++ omap (started InsertCallback)
                    (default [] (dataTransfer evt ≫= files)).
Proof.
  intros w'. subst w'. unfold handleDrop.
  destruct evt as [[[[[|f fs]|]]|]]; cbn [dataTransfer files mbind
    option_bind default omap list_omap]; rewrite ?app_nil_r; try done.
  by rewrite readFiles_reads.
Qed.

(** X3: [handlePaste] never prevents the default action, so the editor's
    own paste goes on; it inserts and schedules nothing itself, also when
    the event has no [clipboardData], no [items] or an empty list: all it
    does is start, in the order of the list, one read for each item whose
    type matches the pattern and whose [getAsFile()] gives a file, with the
    deferred insertion as callback. *)
Theorem handlePaste_starts_reads (evt : PasteEvent) w :
  let w' := handlePaste evt w in
  defaultPrevented w' = defaultPrevented w
  /\ quill w' = quill w /\ embeds w' = embeds w /\ timers w' = timers w
  /\ reads w'
     = reads w ++ omap (started PasteCallback)
                    (default [] (clipboardData evt ≫= items)).
Proof.
  intros w'. subst w'. unfold handlePaste.
  destruct evt as [[[[[|f fs]|]]|]]; cbn [clipboardData items mbind
    option_bind default omap list_omap]; rewrite ?app_nil_r; try done.
  by rewrite readFiles_reads.
Qed.

(** ** Whole runs *)

Lemma turn_outstanding w w' :
  turn w w' ->
  exists new, embeds w' = embeds w ++ new
              /\ Forall image_by_user new
              /\ map embed_value new ++ outstanding w' ⊆+ outstanding w.
Proof.
  intros [w1 i Hi|w1 i Hi|w1 q].
  - destruct (lookup_lt_is_Some_2 _ _ Hi) as [[b cb] Hrc].
    pose proof (due_delete _ _ _ _ Hrc) as Hdue. unfold due in Hdue.
    unfold finish_read. rewrite Hrc.
    destruct (result b) as [url|]; cbn [option_list option_rect app] in Hdue.
    + destruct cb; cbn [run_callback].
      * eexists [_]. split; [reflexivity|]. split; [repeat constructor|].
        unfold outstanding, scheduled, due. cbn. rewrite Hdue.
        by rewrite <- Permutation_middle.
      * unfold paste_callback. cbn [quill set_reads].
        destruct (getSelection (quill w1)).
        -- exists []. split; [by rewrite app_nil_r|]. split; [done|].
           unfold outstanding, scheduled, due. cbn. rewrite Hdue.
           apply submseteq_app; [done|]. by apply submseteq_cons.
        -- exists []. split; [by rewrite app_nil_r|]. split; [done|].
           unfold outstanding, scheduled, due. cbn. rewrite Hdue.
           by rewrite map_app, <- app_assoc.
    + exists []. split; [by rewrite app_nil_r|]. split; [done|].
      unfold outstanding, scheduled, due. cbn. by rewrite Hdue.
  - destruct (lookup_lt_is_Some_2 _ _ Hi) as [[d [url]] Ht].
    unfold fire_timer. rewrite Ht.
    eexists [_]. split; [reflexivity|]. split; [repeat constructor|].
    unfold outstanding, scheduled, due. cbn.
    rewrite (delete_Permutation (timers w1) i _ Ht) at 2. done.
  - exists []. split; [by rewrite app_nil_r|]. done.
Qed.

Lemma dispatch_outstanding (i : input) w :
  embeds (dispatch i w) = embeds w
  /\ outstanding (dispatch i w) = outstanding w ++ omap data_url (payload i).
Proof.
  destruct i as [evt|evt]; cbn [dispatch].
  - rewrite handleDrop_payload. split; [done|].
    unfold outstanding, scheduled, due. cbn.
    by rewrite omap_app, due_started, app_assoc.
  - rewrite handlePaste_payload. split; [done|].
    unfold outstanding, scheduled, due. cbn.
    by rewrite omap_app, due_started, app_assoc.
Qed.

(** X5: whatever is dropped and pasted, and however the reads, the
    timeouts and the editor's own changes interleave with it, the module
    only ever adds [insertEmbed] calls, each of type ['image'] with source
    ['user']; their values, together with the data URLs still to come from
    reads in flight and pending timeouts, are among those that were
    outstanding at the start and the data URLs of the readable image
    entries offered since, each at most as often as it was offered.  No
    image is inserted twice, and nothing but an offered image is
    inserted. *)
Theorem session_inserts_offered_images w0 ins w :
  session w0 ins w ->
  exists new, embeds w = embeds w0 ++ new
              /\ Forall image_by_user new
              /\ map embed_value new ++ outstanding w
                 ⊆+ outstanding w0 ++ omap data_url (concat (map payload ins)).
Proof.
  induction 1 as [w|w1 w2 w3 ins Hturn _ IH|w1 w3 i ins _ IH].
  - exists []. split; [by rewrite app_nil_r|]. split; [done|].
    cbn. by rewrite app_nil_r.
  - destruct (turn_outstanding _ _ Hturn) as (new1 & He1 & Hf1 & Hs1).
    destruct IH as (new2 & He2 & Hf2 & Hs2).
    exists (new1 ++ new2). split; [by rewrite He2, He1, app_assoc|].
    split; [by apply Forall_app|].
    rewrite map_app, <- app_assoc.
    etransitivity; [apply submseteq_app; [reflexivity|exact Hs2]|].
    rewrite app_assoc. by apply submseteq_app.
  - destruct IH as (new & He & Hf & Hs).
    destruct (dispatch_outstanding i w1) as [He1 Ho1].
    exists new. split; [by rewrite He, He1|]. split; [done|].
    cbn [map concat]. rewrite omap_app, app_assoc, <- Ho1. done.
Qed.

End WithHost.

(** ** The accepted types *)

Lemma residuals_app r s t x :
  x ∈ residuals r s -> (x ++ t)%string ∈ residuals r (s ++ t)%string.
Proof.
  revert s x. induction r as [|c|r1 IH1 r2 IH2|r1 IH1 r2 IH2|r1 IH1]; intros s x Hx; cbn in *.
  - apply list_elem_of_singleton in Hx as ->. by apply list_elem_of_singleton.
  - destruct s as [|d s]; [by apply elem_of_nil in Hx|].
    change (String d s +:+ t) with (String d (s +:+ t)). cbn iota.
    destruct (chr_eqb_i c d); [|by apply elem_of_nil in Hx].
    apply list_elem_of_singleton in Hx as ->. by apply list_elem_of_singleton.
  - apply list_elem_of_In, in_flat_map in Hx as (y & Hy & Hx).
    apply list_elem_of_In, in_flat_map. exists (y ++ t)%string. split.
    + apply list_elem_of_In, IH1. by apply list_elem_of_In.
    + apply list_elem_of_In, IH2. by apply list_elem_of_In.
  - apply elem_of_app in Hx as [Hx|Hx]; apply elem_of_app; auto.
  - apply elem_of_app in Hx as [Hx|Hx]; apply elem_of_app; [auto|].
    apply list_elem_of_singleton in Hx as ->. right. by apply list_elem_of_singleton.
Qed.

(** The pattern has no [$]: whatever follows an accepted prefix is
    accepted too. *)
Lemma is_image_prefix t u :
  is_image t = true -> is_image (t ++ u)%string = true.
Proof.
  unfold is_image, matches_at_start. intros Ht.
  destruct (residuals image_re t) as [|x l] eqn:Hr; [done|].
  assert ((x ++ u)%string ∈ residuals image_re (t ++ u)%string) as Hx.
  { apply residuals_app. rewrite Hr. by left. }
  destruct (residuals image_re (t ++ u)%string); [by apply elem_of_nil in Hx|done].
Qed.

Lemma residuals_lit p s :
  residuals (lit p) s = if starts_with_i p s then [skip p s] else [].
Proof.
  revert s. induction p as [|c p IH]; intros s; [by destruct s|].
  cbn [lit residuals]. destruct s as [|d s]; [done|].
  cbn [starts_with_i skip flat_map]. destruct (chr_eqb_i c d); [|done].
  cbn [flat_map andb]. by rewrite IH, app_nil_r.
Qed.

Lemma matches_alt r1 r2 s :
  matches_at_start (Alt r1 r2) s = matches_at_start r1 s || matches_at_start r2 s.
Proof. unfold matches_at_start. cbn. by destruct (residuals r1 s). Qed.

Lemma matches_lit p s : matches_at_start (lit p) s = starts_with_i p s.
Proof. unfold matches_at_start. rewrite residuals_lit. by destruct (starts_with_i p s). Qed.

Lemma matches_lit_cat p r s :
  matches_at_start (Cat (lit p) r) s
  = starts_with_i p s && matches_at_start r (skip p s).
Proof.
  unfold matches_at_start. cbn [residuals]. rewrite residuals_lit.
  destruct (starts_with_i p s); [|done]. cbn. by rewrite app_nil_r.
Qed.

Lemma starts_with_i_app p q s :
  starts_with_i (p +:+ q) s = starts_with_i p s && starts_with_i q (skip p s).
Proof.
  revert s. induction p as [|c p IH]; intros s; [by destruct s|].
  change (String c p +:+ q) with (String c (p +:+ q)).
  destruct s as [|d s]; [done|]. cbn [starts_with_i skip].
  by rewrite IH, andb_assoc.
Qed.

Lemma matches_jpeg s :
  matches_at_start (Cat (lit "jp") (Cat (Opt (Chr "e")) (Chr "g"))) s
  = starts_with_i "jpeg" s || starts_with_i "jpg" s.
Proof.
  rewrite matches_lit_cat.
  change "jpeg" with ("jp" +:+ "eg"). change "jpg" with ("jp" +:+ "g").
  rewrite !starts_with_i_app. destruct (starts_with_i "jp" s); [|done].
  cbn [andb]. generalize (skip "jp" s). intros u.
  unfold matches_at_start. cbn [residuals].
  destruct u as [|c1 [|c2 u]]; cbn [starts_with_i flat_map app];
    repeat (destruct (chr_eqb_i _ _); cbn [flat_map app andb orb]); done.
Qed.

Lemma starts_with_i_cons c p d s :
  starts_with_i (String c p) (String d s) = chr_eqb_i c d && starts_with_i p s.
Proof. reflexivity. Qed.

Lemma matches_apng s :
  matches_at_start (Cat (Opt (Chr "a")) (lit "png")) s
  = starts_with_i "apng" s || starts_with_i "png" s.
Proof.
  unfold matches_at_start. cbn [residuals].
  rewrite flat_map_app. cbn [flat_map]. rewrite app_nil_r, residuals_lit.
  destruct s as [|d s]; [done|].
  rewrite (starts_with_i_cons "a" "png").
  generalize (starts_with_i "png" (String d s)). intros b.
  destruct (chr_eqb_i "a" d); cbn [flat_map app andb orb].
  - rewrite app_nil_r, residuals_lit. by destruct (starts_with_i "png" s), b.
  - by destruct b.
Qed.

(** X4: the pattern of [readFiles] accepts exactly the types that start,
    letters in any case, with one of the nine prefixes; what follows the
    prefix does not matter. *)
Lemma is_image_prefixes t :
  is_image t = existsb (fun p => starts_with_i p t) accepted_prefixes.
Proof.
  unfold is_image, image_re, accepted_prefixes.
  rewrite matches_lit_cat, !matches_alt, matches_jpeg, matches_apng, !matches_lit.
  cbn [existsb].
  change "image/gif" with ("image/" +:+ "gif").
  change "image/jpeg" with ("image/" +:+ "jpeg").
  change "image/jpg" with ("image/" +:+ "jpg").
  change "image/png" with ("image/" +:+ "png").
  change "image/apng" with ("image/" +:+ "apng").
  change "image/svg" with ("image/" +:+ "svg").
  change "image/webp" with ("image/" +:+ "webp").
  change "image/bmp" with ("image/" +:+ "bmp").
  change "image/vnd.microsoft.icon" with ("image/" +:+ "vnd.microsoft.icon").
  rewrite !starts_with_i_app.
  destruct (starts_with_i "image/" t); [|done]. cbn [andb].
  generalize (skip "image/" t). intros u.
  rewrite orb_false_r.
  repeat match goal with
         | |- context [starts_with_i ?p u] =>
             destruct (starts_with_i p u); cbn [orb]; try done
         end.
Qed.

Lemma accepted_types :
  Forall (fun t => is_image t = true)
    ["image/gif"; "image/jpeg"; "image/jpg"; "image/png"; "image/apng";
     "image/svg+xml"; "image/webp"; "image/bmp"; "image/vnd.microsoft.icon";
     "IMAGE/PNG"].
Proof. repeat constructor. Qed.

Lemma rejected_types :
  Forall (fun t => is_image t = false)
    ["application/pdf"; "text/plain"; ""; "image/tiff"; "image/x-icon";
     "image/vnd.adobe.photoshop"; "ximage/png"].
Proof. repeat constructor. Qed.

(** ** Runs on the concrete editor *)

(** C2: with the cursor at the start of the document, [index] is [0],
    which [||] takes for absent: the image goes to the end of the document
    (position 5), not to position 0. *)
Theorem insert_at_index_zero :
  getSelection (quill (idle (cursor_at 0))) = Some {| index := 0; len := 0 |}
  /\ embeds (insert png_url (idle (cursor_at 0)))
     = [{| embed_index := 5; embed_type := "image";
           embed_value := png_url; embed_source := "user" |}].
Proof. split; reflexivity. Qed.

Lemma insert_at_index_three :
  embeds (insert png_url (idle (cursor_at 3)))
  = [{| embed_index := 3; embed_type := "image";
        embed_value := png_url; embed_source := "user" |}].
Proof. reflexivity. Qed.

Lemma insert_with_no_cursor :
  embeds (insert png_url (idle no_cursor))
  = [{| embed_index := 5; embed_type := "image";
        embed_value := png_url; embed_source := "user" |}].
Proof. reflexivity. Qed.

(** C5, as stated, fails: a file whose type is accepted but whose read
    fails is never inserted, although the event loop settles. *)
Lemma drop_unreadable_image :
  let w1 := handleDrop (drop_of [unreadable_png]) (idle no_cursor) in
  is_image (type unreadable_png) = true
  /\ (exists w, turns w1 w /\ quiescent w)
  /\ forall w, turns w1 w -> embeds w = [] /\ List.length (embeds w) <> 1%nat.
Proof.
  split; [reflexivity|]. split; [apply settles|]. intros w Hturns.
  apply turns_drop_only in Hturns as (_ & new & He & Hp & _).
  - rewrite He. cbn in Hp. apply Permutation_nil_r in Hp.
    by destruct new.
  - split; [reflexivity|]. repeat constructor.
Qed.

Lemma drop_one_file_witness :
  quiescent (idle no_cursor)
  /\ forall w,
       turns (handleDrop (drop_of [readable_png]) (idle no_cursor)) w ->
       quiescent w ->
       exists i, embeds w = [{| embed_index := i; embed_type := "image";
                                embed_value := png_url; embed_source := "user" |}].
Proof.
  split; [split; reflexivity|].
  exact (proj2 (drop_one_file (idle no_cursor) readable_png
                  (conj eq_refl eq_refl))).
Defined.

Lemma paste_one_image_witness :
  let w2 := finish_read 0 (handlePaste (paste_of [pasted_png]) (idle no_cursor)) in
  embeds w2 = [] /\ timers w2 = [(0, InsertLater png_url)]
  /\ exists i, embeds (fire_timer 0 (set_quill (cursor_at 3) w2))
               = [{| embed_index := i; embed_type := "image";
                     embed_value := png_url; embed_source := "user" |}].
Proof.
  pose proof (paste_one_image (idle no_cursor) pasted_png
                {| result := Some png_url |} png_url no_cursor
                eq_refl eq_refl eq_refl) as (_ & (He & _) & Ht & Hfire).
  split; [exact He|]. split; [exact Ht|].
  exact (proj2 (Hfire (cursor_at 3))).
Defined.

Lemma drop_many_files_witness :
  quiescent (idle no_cursor)
  /\ forall w,
       turns (handleDrop
                (drop_of [readable_png; unreadable_png;
                          FileEntry "text/plain" {| result := Some "data:," |};
                          readable_png])
                (idle no_cursor)) w ->
       quiescent w ->
       exists new, embeds w = new
                   /\ map embed_value new ≡ₚ [png_url; png_url]
                   /\ Forall image_by_user new.
Proof.
  split; [split; reflexivity|].
  exact (proj2 (drop_many_files (idle no_cursor)
                  [readable_png; unreadable_png;
                   FileEntry "text/plain" {| result := Some "data:," |};
                   readable_png]
                  (conj eq_refl eq_refl))).
Defined.

Lemma session_inserts_offered_images_witness :
  let w1 := dispatch (Paste (paste_of [pasted_png])) (idle no_cursor) in
  let w3 := fire_timer 0 (finish_read 0 w1) in
  session (idle no_cursor) [Paste (paste_of [pasted_png])] w3
  /\ exists new, embeds w3 = new
                 /\ Forall image_by_user new
                 /\ map embed_value new ++ [] ⊆+ [png_url].
Proof.
  intros w1 w3.
  assert (session (idle no_cursor) [Paste (paste_of [pasted_png])] w3) as Hs.
  { apply session_input.
    eapply session_turn; [apply (turn_read _ 0%nat); vm_compute; lia|].
    eapply session_turn; [apply (turn_timer _ 0%nat); vm_compute; lia|].
    apply session_end. }
  split; [exact Hs|].
  exact (session_inserts_offered_images _ _ _ Hs).
Defined.

End ImageDropProofs.

(** * Properties of ImageResize *)

Module ImageResizeProofs.
Import ImageResize.

(** ** Running the monad *)

Lemma bind_ret {A B} (a : A) (k : A -> M B) s : (mret a ≫= k) s = k a s.
Proof. reflexivity. Qed.

Lemma bind_throw {A B} e (k : A -> M B) s : (throw e ≫= k) s = (Throw e, s).
Proof. reflexivity. Qed.

Lemma bind_gets {A B} (f : state -> A) (k : A -> M B) s :
  (gets f ≫= k) s = k (f s) s.
Proof. reflexivity. Qed.

Lemma bind_modify {B} (f : state -> state) (k : unit -> M B) s :
  (modify f ≫= k) s = k tt (f s).
Proof. reflexivity. Qed.

Lemma bind_assoc {A B C} (m : M A) (f : A -> M B) (g : B -> M C) s :
  ((m ≫= f) ≫= g) s = (m ≫= fun a => f a ≫= g) s.
Proof.
  unfold mbind, M_bind. destruct (m s) as [[a|e] s']; reflexivity.
Qed.

Lemma bind_Ok {A B} (m : M A) (k : A -> M B) s a s' :
  m s = (Ok a, s') -> (m ≫= k) s = k a s'.
Proof. intros Hm. unfold mbind, M_bind. by rewrite Hm. Qed.

Lemma bind_Throw {A B} (m : M A) (k : A -> M B) s e s' :
  m s = (Throw e, s') -> (m ≫= k) s = (Throw e, s').
Proof. intros Hm. unfold mbind, M_bind. by rewrite Hm. Qed.

Lemma bind_Ok_inv {A B} (m : M A) (k : A -> M B) s b s' :
  (m ≫= k) s = (Ok b, s') ->
  exists a s1, m s = (Ok a, s1) /\ k a s1 = (Ok b, s').
Proof.
  unfold mbind, M_bind. destruct (m s) as [[a|e] s1]; [eauto|discriminate].
Qed.

(** Straight-line code runs by rewriting. *)
Ltac run :=
  repeat first
    [ rewrite bind_assoc
    | rewrite bind_gets
    | rewrite bind_modify
    | rewrite bind_ret
    | rewrite bind_throw
    | progress cbn [forEach forEach_from deref setStyle fst snd] ].

(** A step whose outcome is known. *)
Ltac ran H :=
  repeat rewrite bind_assoc; rewrite (bind_Ok _ _ _ _ _ H); cbv beta.

(** ** What a computation leaves alone

    [keeps R m] holds for every [m] built from operations that keep [R],
    whether [m] returns or raises. *)

Section Frame.
Context (R : state -> state -> Prop) `{!PreOrder R}.

Lemma keeps_ret {A} (a : A) : keeps R (mret a).
Proof. intros s. reflexivity. Qed.

Lemma keeps_throw {A} e : keeps R (@throw A e).
Proof. intros s. reflexivity. Qed.

Lemma keeps_gets {A} (f : state -> A) : keeps R (gets f).
Proof. intros s. reflexivity. Qed.

Lemma keeps_bind {A B} (m : M A) (k : A -> M B) :
  keeps R m -> (forall a, keeps R (k a)) -> keeps R (m ≫= k).
Proof.
  intros Hm Hk s. specialize (Hm s). unfold mbind, M_bind.
  destruct (m s) as [[a|e] s1]; cbn in *; [|done].
  etransitivity; [exact Hm|apply Hk].
Qed.

Lemma keeps_forEach {A} (f : A -> M unit) l :
  (forall x, keeps R (f x)) -> keeps R (forEach f l).
Proof.
  intros Hf. induction l as [|x l IH]; cbn [forEach].
  - apply keeps_ret.
  - apply keeps_bind; auto.
Qed.

Lemma keeps_forEach_from {A} (f : A -> nat -> M unit) l i :
  (forall x j, keeps R (f x j)) -> keeps R (forEach_from i f l).
Proof.
  intros Hf. revert i. induction l as [|x l IH]; intros i; cbn [forEach_from].
  - apply keeps_ret.
  - apply keeps_bind; auto.
Qed.

Lemma keeps_deref {A} (o : option A) : keeps R (deref o).
Proof. destruct o; [apply keeps_ret|apply keeps_throw]. Qed.

End Frame.

(** Frame lemmas of single operations and methods are looked up by the
    name of the operation. *)
Create HintDb frames discriminated.

(** One step of a frame proof, by the shape of the computation. *)
Ltac frame_step :=
  lazymatch goal with
  | |- forall _, _ => intro
  | |- keeps _ (mret _) => apply keeps_ret; apply _
  | |- keeps _ (throw _) => apply keeps_throw; apply _
  | |- keeps _ (gets _) => apply keeps_gets; apply _
  | |- keeps _ (deref _) => apply keeps_deref; apply _
  | |- keeps _ (forEach _ _) => apply keeps_forEach; [apply _|]
  | |- keeps _ (forEach_from _ _ _) => apply keeps_forEach_from; [apply _|]
  | |- keeps _ (if ?b then _ else _) => destruct b
  | |- keeps _ (match ?o with Some _ => _ | None => _ end) => destruct o
  | |- keeps _ (match ?o with Some _ => _ | None => _ end _) => destruct o
  | |- keeps _ (_ ≫= _) => apply keeps_bind; [apply _| |]
  | |- keeps _ _ => solve [auto 1 with frames nocore]
  end.

Ltac frame := repeat frame_step.

(** ** Elements *)

Lemma elements_update_eq n f d :
  elements (update n f d) n = f (elements d n).
Proof. cbn. by rewrite fn_lookup_insert. Qed.

Lemma elements_update_ne n m f d :
  n <> m -> elements (update n f d) m = elements d m.
Proof. intros Hne. cbn. by rewrite fn_lookup_insert_ne. Qed.

Lemma elements_update n m f d :
  elements (update n f d) m
  = if decide (n = m) then f (elements d m) else elements d m.
Proof.
  case_decide as Hnm.
  - subst. apply elements_update_eq.
  - by apply elements_update_ne.
Qed.

Lemma doc_with_doc f s : doc (with_doc f s) = f (doc s).
Proof. reflexivity. Qed.

Lemma update_width n f d m :
  (forall e, width (f e) = width e) ->
  width (elements (update n f d) m) = width (elements d m).
Proof.
  intros Hf. rewrite elements_update. by case_decide.
Qed.

(** ** Widths *)

#[local] Instance same_widths_preorder : PreOrder same_widths.
Proof.
  split.
  - by intros s n.
  - intros s1 s2 s3 H12 H23 n. by rewrite H23.
Qed.

Lemma setStyle_widths n p v : keeps same_widths (setStyle n p v).
Proof. intros s m. by apply update_width. Qed.

Lemma innerHTML_widths n v :
  keeps same_widths (modify (with_doc (update n (set_innerHTML v)))).
Proof. intros s m. by apply update_width. Qed.

#[local] Hint Resolve setStyle_widths innerHTML_widths : frames.

Lemma extend_widths n srcs : keeps same_widths (extend n srcs).
Proof. unfold extend. frame. Qed.

#[local] Hint Resolve extend_widths : frames.

Lemma positionBoxes_widths rect : keeps same_widths (positionBoxes rect).
Proof. unfold positionBoxes. frame. Qed.

#[local] Hint Resolve positionBoxes_widths : frames.

Section WithLayout.
Variable layout : document -> node -> DOMRect.

Lemma positionSizeDisplay_widths rect :
  keeps same_widths (positionSizeDisplay layout rect).
Proof.
  unfold positionSizeDisplay, getCurrentSize, boundingClientRect. frame.
Qed.

#[local] Hint Resolve positionSizeDisplay_widths : frames.

Lemma stored_width_in_range d z :
  0 <= z <= 2147483647 -> stored_width d (Int z) = Int z.
Proof.
  intros Hz. unfold stored_width, to_unsigned_long.
  rewrite Z.mod_small by lia.
  by destruct (Z.leb_spec z 2147483647); [|lia].
Qed.

Lemma setWidth_overlays n r : keeps same_overlays (setWidth n r).
Proof. by intros s. Qed.

Lemma setWidth_capture n r : keeps capture_listeners_stay (setWidth n r).
Proof. by intros s l _ Hl. Qed.

#[local] Hint Resolve setWidth_overlays setWidth_capture : frames.

(** The width of the selected image after a mousemove of the drag,
    whether or not the handles could be repositioned afterwards. *)
Lemma handleDrag_width evt s i :
  img (this s) = Some i ->
  width (elements (doc (snd (handleDrag layout evt s))) i)
  = stored_width (doc s) (dragged_width (this s) (clientX evt)).
Proof.
  intros Hi. unfold handleDrag. rewrite bind_gets, Hi, bind_gets.
  unfold dragged_width.
  assert (forall v (k : M unit), keeps same_widths k ->
    width (elements (doc (snd ((setWidth i v ≫= fun _ => k) s))) i)
    = stored_width (doc s) v)
    as Hset.
  { intros v k Hk. unfold setWidth. rewrite bind_modify, Hk, doc_with_doc.
    by rewrite elements_update_eq. }
  destruct (_ || _); apply Hset; unfold boundingClientRect; frame.
Qed.

Lemma Math_round_proper a b : num_eq a b -> Math_round a = Math_round b.
Proof.
  destruct a as [x| | |], b as [y| | |]; try done.
  cbn [num_eq Math_round]. intros Hxy. f_equal.
  apply Qfloor_comp. by rewrite Hxy.
Qed.

(** A handle of the right side: the width follows the pointer,
    [round(preDragWidth + clientX - dragStartX)], when that is a width an
    image can have. *)
Lemma handleDrag_right_handle evt s i p x0 z :
  img (this s) = Some i ->
  preDragWidth (this s) = Some p ->
  dragStartX (this s) = Some x0 ->
  dragBox (this s) <> boxes (this s) !! 0%nat ->
  dragBox (this s) <> boxes (this s) !! 3%nat ->
  Math_round (sub (add p (clientX evt)) x0) = Int z ->
  0 <= z <= 2147483647 ->
  width (elements (doc (snd (handleDrag layout evt s))) i) = Int z.
Proof.
  intros Hi Hp Hx H0 H3 Hr Hz. rewrite (handleDrag_width _ _ _ Hi).
  unfold dragged_width. rewrite Hp, Hx. cbn [to_num].
  rewrite !bool_decide_eq_false_2 by done. cbn [orb].
  rewrite Hr. by apply stored_width_in_range.
Qed.

(** A handle of the left side: the start position is subtracted a second
    time instead of being added back,
    [round(preDragWidth - clientX - dragStartX)]. *)
Lemma handleDrag_left_handle evt s i p x0 z :
  img (this s) = Some i ->
  preDragWidth (this s) = Some p ->
  dragStartX (this s) = Some x0 ->
  dragBox (this s) = boxes (this s) !! 0%nat
  \/ dragBox (this s) = boxes (this s) !! 3%nat ->
  Math_round (sub (sub p (clientX evt)) x0) = Int z ->
  0 <= z <= 2147483647 ->
  width (elements (doc (snd (handleDrag layout evt s))) i) = Int z.
Proof.
  intros Hi Hp Hx Hb Hr Hz. rewrite (handleDrag_width _ _ _ Hi).
  unfold dragged_width. rewrite Hp, Hx. cbn [to_num].
  replace (_ || _) with true.
  - rewrite Hr. by apply stored_width_in_range.
  - symmetry. apply orb_true_iff.
    destruct Hb as [Hb|Hb]; [left|right]; by apply bool_decide_eq_true_2.
Qed.
(** C10: a mousemove that reaches [handleDrag] while no image is selected
    returns at once and leaves the whole state as it was. *)
Theorem handleDrag_without_image evt s :
  img (this s) = None -> handleDrag layout evt s = (Ok tt, s).
Proof. intros Hi. unfold handleDrag. rewrite bind_gets, Hi. reflexivity. Qed.


(** ** The size display *)

(** A rounded pixel value is within half a pixel of the exact one, so a
    label placed at [round(edge - size - 8)] ends before the edge and one
    placed at [round(edge + 8)] starts after it. *)
Lemma Math_round_bounds q :
  exists z, Math_round (Fin q) = Int z
            /\ (q - (1 # 2) < inject_Z z)%Q /\ (inject_Z z <= q + (1 # 2))%Q.
Proof.
  exists (Qfloor (q + (1 # 2))). split; [reflexivity|].
  pose proof (Qlt_floor (q + (1 # 2))) as Hlt.
  pose proof (Qfloor_le (q + (1 # 2))) as Hle.
  rewrite inject_Z_plus in Hlt. change (inject_Z 1) with 1%Q in Hlt.
  split; [lra|exact Hle].
Qed.

(** C9, amended: when the size display is positioned (there is a display
    and a selected image), the label shows the width [w] of the image and
    the height [h] that [getCurrentSize] computes in double arithmetic:
    the quotient [w / naturalWidth] is rounded to a double, multiplied by
    [naturalHeight], rounded to a double again and then to the nearest
    whole number.  If [w > 120] and [h > 30] the left and top of the label
    are those of the bottom right corner of the image minus the size of the
    label and 8 pixels (inside the image), otherwise those of the corner
    plus 8 pixels (outside, below and to the right). *)
Theorem positionSizeDisplay_placement rect s d i :
  display (this s) = Some d ->
  img (this s) = Some i ->
  let e := elements (doc s) i in
  let w := width e in
  let h := Math_round (mul (div (of_rounded w) (of_N (naturalWidth e)))
                           (of_N (naturalHeight e))) in
  let label := (toString w ++ " &times; " ++ toString h)%string in
  let right := add (add (rect_left rect) (rect_width rect)) (pageXOffset (doc s)) in
  let bottom := add (add (rect_top rect) (rect_height rect)) (pageYOffset (doc s)) in
  let dispRect := layout (update d (set_innerHTML label) (doc s)) d in
  exists s',
    positionSizeDisplay layout rect s = (Ok tt, s') /\
    innerHTML (elements (doc s') d) = label /\
    style (elements (doc s') d) !! "left"
    = Some (if gt w 120 && gt h 30
            then px (sub (sub right (rect_width dispRect)) (Fin 8))
            else px (add right (Fin 8))) /\
    style (elements (doc s') d) !! "top"
    = Some (if gt w 120 && gt h 30
            then px (sub (sub bottom (rect_height dispRect)) (Fin 8))
            else px (add bottom (Fin 8))).
Proof.
  intros Hd Hi. cbv zeta.
  unfold positionSizeDisplay, getCurrentSize, boundingClientRect, extend.
  run. rewrite Hd, Hi. run. rewrite Hi. run.
  destruct (gt _ 120 && gt _ 30); run;
    (eexists; split; [reflexivity|]);
    rewrite !doc_with_doc, !elements_update_eq; cbn;
    rewrite lookup_insert_eq, lookup_insert_ne, lookup_insert_eq by done;
    done.
Qed.


(** ** Teardown *)

#[local] Instance same_selection_preorder : PreOrder same_selection.
Proof.
  split.
  - by intros s.
  - intros s1 s2 s3 (?&?&?) (?&?&?). repeat split; congruence.
Qed.

Lemma with_doc_selection f : keeps same_selection (modify (with_doc f)).
Proof. done. Qed.

Lemma with_this_selection f :
  (forall t, img (f t) = img t /\ display (f t) = display t
             /\ options (f t) = options t) ->
  keeps same_selection (modify (with_this f)).
Proof. intros Hf s. apply Hf. Qed.

Lemma removeChild_selection n : keeps same_selection (removeChild n).
Proof.
  destruct n as [c|]; [|done]. intros s. unfold removeChild.
  by destruct (decide _).
Qed.

#[local] Hint Resolve with_doc_selection removeChild_selection : frames.
#[local] Hint Extern 1 (keeps same_selection (modify (with_this _))) =>
  apply with_this_selection; done : frames.

Lemma hideResizers_selection : keeps same_selection hideResizers.
Proof.
  unfold hideResizers, removeEventListener, setUserSelect, setCursor, setStyle.
  frame.
Qed.

(** X19: without a size display [hide] never gets to its end, in any
    state: it raises, and the image that was selected stays selected. *)
Lemma hide_without_display s :
  display (this s) = None ->
  exists e s', hide s = (Throw e, s') /\ img (this s') = img (this s).
Proof.
  intros Hd. unfold hide.
  pose proof (hideResizers_selection s) as (Hi & Hd' & _).
  destruct (hideResizers s) as [[[]|e] s1] eqn:Hr; cbn [snd] in *.
  - exists TypeError, s1. split; [|done].
    ran Hr. unfold hideSizeDisplay.
    run. rewrite Hd', Hd. reflexivity.
  - exists e, s1. split; [|done]. by rewrite (bind_Throw _ _ _ _ _ Hr).
Qed.

Lemma hideResizers_clears s s' :
  hideResizers s = (Ok tt, s') ->
  dragBox (this s') = None /\ dragStartX (this s') = None
  /\ preDragWidth (this s') = None /\ boxes (this s') = [].
Proof.
  unfold hideResizers. intros Hh.
  repeat first [ rewrite bind_modify in Hh
               | apply bind_Ok_inv in Hh as (? & ? & _ & Hh) ].
  injection Hh as <-. done.
Qed.

Lemma cursor_reset_twice e : cursor_reset (cursor_reset e) = cursor_reset e.
Proof. unfold cursor_reset. cbn. by rewrite insert_insert_eq. Qed.

(** ** Listeners *)

#[local] Instance capture_listeners_preorder : PreOrder capture_listeners_stay.
Proof.
  split.
  - by intros s l.
  - intros s1 s2 s3 H12 H23 l Hc Hl. auto.
Qed.

Lemma same_listeners_capture f :
  (forall s, listeners (doc (f s)) = listeners (doc s)) ->
  keeps capture_listeners_stay (modify f).
Proof. intros Hf s l _ Hl. cbn. by rewrite Hf. Qed.

Lemma addEventListener_capture t ty h c :
  keeps capture_listeners_stay (addEventListener t ty h c).
Proof.
  intros s l _ Hl. cbn. destruct (decide _); [done|].
  cbn. apply elem_of_app. by left.
Qed.

(** The heart of C4: [removeEventListener] without a capture flag leaves
    every capture listener in place. *)
Lemma removeEventListener_capture t ty h :
  keeps capture_listeners_stay (removeEventListener t ty h).
Proof.
  intros s l Hc Hl. cbn. apply list_elem_of_filter. split; [|done].
  intros ->. discriminate.
Qed.

Lemma createElement_capture : keeps capture_listeners_stay createElement.
Proof. by intros s l _ Hl. Qed.

Lemma removeChild_capture n : keeps capture_listeners_stay (removeChild n).
Proof.
  destruct n as [c|]; [|by intros s l]. intros s l _ Hl.
  unfold removeChild. by destruct (decide _).
Qed.

Lemma setStyle_capture n p v : keeps capture_listeners_stay (setStyle n p v).
Proof. by apply same_listeners_capture. Qed.

Lemma appendChild_capture n : keeps capture_listeners_stay (appendChild n).
Proof. by apply same_listeners_capture. Qed.

#[local] Hint Resolve addEventListener_capture removeEventListener_capture
  createElement_capture removeChild_capture setStyle_capture
  appendChild_capture : frames.
#[local] Hint Extern 1 (keeps capture_listeners_stay (modify _)) =>
  apply same_listeners_capture; reflexivity : frames.

Lemma extend_capture n srcs : keeps capture_listeners_stay (extend n srcs).
Proof. unfold extend. frame. Qed.

Lemma setUserSelect_capture v : keeps capture_listeners_stay (setUserSelect v).
Proof. unfold setUserSelect. frame. Qed.

Lemma setCursor_capture v : keeps capture_listeners_stay (setCursor v).
Proof. unfold setCursor. frame. Qed.

#[local] Hint Resolve extend_capture setUserSelect_capture
  setCursor_capture : frames.

Lemma addBox_capture c : keeps capture_listeners_stay (addBox c).
Proof. unfold addBox. frame. Qed.

Lemma positionBoxes_capture rect :
  keeps capture_listeners_stay (positionBoxes rect).
Proof. unfold positionBoxes. frame. Qed.

Lemma positionSizeDisplay_capture rect :
  keeps capture_listeners_stay (positionSizeDisplay layout rect).
Proof.
  unfold positionSizeDisplay, getCurrentSize, boundingClientRect. frame.
Qed.

#[local] Hint Resolve addBox_capture positionBoxes_capture
  positionSizeDisplay_capture : frames.

Lemma showResizers_capture : keeps capture_listeners_stay showResizers.
Proof. unfold showResizers. frame. Qed.

Lemma showSizeDisplay_capture : keeps capture_listeners_stay showSizeDisplay.
Proof. unfold showSizeDisplay. frame. Qed.

Lemma hideResizers_capture : keeps capture_listeners_stay hideResizers.
Proof. unfold hideResizers. frame. Qed.

#[local] Hint Resolve showResizers_capture showSizeDisplay_capture
  hideResizers_capture : frames.

Lemma hide_capture : keeps capture_listeners_stay hide.
Proof. unfold hide, hideSizeDisplay. frame. Qed.

Lemma show_capture i : keeps capture_listeners_stay (show layout i).
Proof. unfold show, boundingClientRect. frame. Qed.

#[local] Hint Resolve hide_capture show_capture : frames.

(** No handler of the module ever removes a capture listener. *)
Lemma handlers_capture ev :
  keeps capture_listeners_stay (handle layout ev).
Proof.
  destruct ev as [evt|evt|evt| | |]; cbn [handle].
  - unfold handleClick. frame.
  - unfold handleMousedown, getStyle. frame.
  - unfold handleDrag, boundingClientRect. frame.
  - unfold handleMouseup. frame.
  - unfold checkImage. frame.
  - unfold checkImage. frame.
Qed.

(** ** Operations that only touch styles and content *)

Lemma styles_only_ret P : styles_only P (mret tt).
Proof. intros s _. by exists s. Qed.

Lemma styles_only_update P n f :
  styles_only P (modify (with_doc (update n f))).
Proof. intros s _. eexists. split; reflexivity. Qed.

Lemma styles_only_setStyle P n p v : styles_only P (setStyle n p v).
Proof. apply styles_only_update. Qed.

Lemma styles_only_bind P m (k : unit -> M unit) :
  styles_only P m -> (forall u, styles_only P (k u)) -> styles_only P (m ≫= k).
Proof.
  intros Hm Hk s Hs. destruct (Hm s Hs) as (s1 & Hr1 & Hs1).
  destruct (Hk tt s1) as (s2 & Hr2 & Hs2); [by rewrite Hs1|].
  exists s2. split; [|congruence].
  by rewrite (bind_Ok _ _ _ _ _ Hr1).
Qed.

Lemma styles_only_forEach {A} P (f : A -> M unit) l :
  (forall x, styles_only P (f x)) -> styles_only P (forEach f l).
Proof.
  intros Hf. induction l as [|x l IH]; cbn [forEach].
  - apply styles_only_ret.
  - apply styles_only_bind; auto.
Qed.

Ltac styles_step :=
  lazymatch goal with
  | |- forall _, _ => intro
  | |- styles_only _ (mret _) => apply styles_only_ret
  | |- styles_only _ (setStyle _ _ _) => apply styles_only_setStyle
  | |- styles_only _ (forEach _ _) => apply styles_only_forEach
  | |- styles_only _ (_ ≫= _) => apply styles_only_bind
  end.

Lemma styles_only_extend P n srcs : styles_only P (extend n srcs).
Proof. unfold extend. repeat styles_step. Qed.

Lemma styles_only_setUserSelect P v : styles_only P (setUserSelect v).
Proof. unfold setUserSelect. repeat styles_step. Qed.

Lemma structure_eq s s' :
  structure s' = structure s <->
  this s' = this s /\ childNodes (doc s') = childNodes (doc s)
  /\ created (doc s') = created (doc s).
Proof.
  unfold structure. split.
  - intros [= -> -> ->]. done.
  - intros (-> & -> & ->). done.
Qed.

Lemma structure_is s t c k :
  structure s = (t, c, k) <->
  this s = t /\ childNodes (doc s) = c /\ created (doc s) = k.
Proof.
  unfold structure. split.
  - intros [= -> -> ->]. done.
  - intros (-> & -> & ->). done.
Qed.

Lemma styles_only_setCursor v :
  styles_only (fun st => img st.1.1 <> None) (setCursor v).
Proof.
  intros [t d] Hs. cbn in Hs. unfold setCursor. run. cbn [this].
  destruct (img t) as [i|]; [|done]. run.
  eexists. split; reflexivity.
Qed.

Lemma styles_only_positionBoxes rect :
  styles_only (fun st => (4 <= List.length (boxes st.1.1))%nat)
    (positionBoxes rect).
Proof.
  intros [t d] Hs. cbn in Hs. unfold positionBoxes, extend. 
  destruct t as [o i bs db dx pw dp]. cbn in Hs.
  destruct bs as [|b0 [|b1 [|b2 [|b3 bs]]]]; cbn in Hs; try lia.
  run. cbn. eexists. split; reflexivity.
Qed.

Lemma styles_only_positionSizeDisplay rect :
  styles_only (fun _ => True) (positionSizeDisplay layout rect).
Proof.
  intros [t d] _. unfold positionSizeDisplay, getCurrentSize, boundingClientRect, extend.
  destruct t as [o i bs db dx pw dp]. run. cbn [this display img].
  destruct dp as [dp|], i as [i|]; try (by eexists).
  run. cbn [this img]. run.
  destruct (gt _ 120 && gt _ 30); run; eexists; split; reflexivity.
Qed.

(** ** Selecting and deselecting, step by step *)

Lemma bind_createElement {B} (k : node -> M B) s :
  (createElement ≫= k) s
  = k (Created (created (doc s)))
      (with_doc (fun d => set_created (S (created d))
         (set_elements (<[Created (created (doc s)) := blank]> (elements d)) d)) s).
Proof. reflexivity. Qed.

Lemma filter_all {A} (P : A -> Prop) `{!forall x, Decision (P x)} (l : list A) :
  (forall x, x ∈ l -> P x) -> filter P l = l.
Proof.
  induction l as [|x l IH]; intros Hl; [done|].
  rewrite filter_cons_True by (apply Hl; left).
  f_equal. apply IH. intros y Hy. apply Hl. by right.
Qed.

Lemma fresh_ids_not_child d :
  fresh_ids d -> Created (created d) ∉ childNodes d.
Proof. intros Hf Hin. apply Hf in Hin. lia. Qed.

Lemma appendChild_fresh d :
  fresh_ids d ->
  filter (fun c => c <> Created (created d)) (childNodes d) = childNodes d.
Proof.
  intros Hf. apply filter_all. intros x Hx ->.
  by apply (fresh_ids_not_child d).
Qed.

(** A new handle: one more element, last child of the body, last of
    [boxes]. *)
Lemma addBox_spec c s :
  fresh_ids (doc s) ->
  exists s',
    addBox c s = (Ok tt, s')
    /\ structure s'
       = (set_boxes (boxes (this s) ++ [Created (created (doc s))]) (this s),
          childNodes (doc s) ++ [Created (created (doc s))],
          S (created (doc s)))
    /\ fresh_ids (doc s').
Proof.
  intros Hf. unfold addBox. rewrite bind_createElement. run.
  match goal with
  | |- context [(extend ?n ?srcs ≫= ?k) ?s1] =>
      destruct (styles_only_extend (fun _ => True) n srcs s1 I)
        as (s2 & Hr & (Ht & Hc & Hk)%structure_eq);
      rewrite (bind_Ok _ _ _ _ _ Hr)
  end.
  unfold addEventListener, appendChild. run.
  eexists. split; [reflexivity|]. cbn in Ht, Hc, Hk.
  split.
  - unfold structure. cbn.
    destruct (decide _); cbn; rewrite Ht, Hc, Hk;
      by rewrite appendChild_fresh.
  - intros j. cbn. destruct (decide _); cbn; rewrite Hc, Hk;
      rewrite appendChild_fresh by done;
      intros [Hj|[= ->]%list_elem_of_singleton]%elem_of_app;
      try apply Hf in Hj; lia.
Qed.

Lemma set_boxes_set_boxes l l' t : set_boxes l (set_boxes l' t) = set_boxes l t.
Proof. reflexivity. Qed.

Lemma showResizers_spec s :
  fresh_ids (doc s) ->
  let k := created (doc s) in
  exists s',
    showResizers s = (Ok tt, s')
    /\ structure s'
       = (set_boxes (boxes (this s)
                     ++ [Created k; Created (S k); Created (S (S k));
                         Created (S (S (S k)))]) (this s),
          childNodes (doc s)
          ++ [Created k; Created (S k); Created (S (S k));
              Created (S (S (S k)))],
          S (S (S (S k))))
    /\ fresh_ids (doc s')
    /\ keyup_listener ∈ listeners (doc s')
    /\ input_listener ∈ listeners (doc s').
Proof.
  intros Hf k. unfold showResizers.
  destruct (styles_only_setUserSelect (fun _ => True) "none" s I)
    as (s0 & Hr0 & (Ht0 & Hc0 & Hk0)%structure_eq).
  ran Hr0.
  assert (fresh_ids (doc s0)) as Hf0.
  { intros j. rewrite Hc0, Hk0. apply Hf. }
  destruct (addBox_spec "nwse-resize" s0 Hf0)
    as (s1 & Hr1 & (Ht1 & Hc1 & Hk1)%structure_is & Hf1).
  ran Hr1.
  destruct (addBox_spec "nesw-resize" s1 Hf1)
    as (s2 & Hr2 & (Ht2 & Hc2 & Hk2)%structure_is & Hf2).
  ran Hr2.
  destruct (addBox_spec "nwse-resize" s2 Hf2)
    as (s3 & Hr3 & (Ht3 & Hc3 & Hk3)%structure_is & Hf3).
  ran Hr3.
  destruct (addBox_spec "nesw-resize" s3 Hf3)
    as (s4 & Hr4 & (Ht4 & Hc4 & Hk4)%structure_is & Hf4).
  ran Hr4.
  cbn [structure fst snd] in *.
  unfold addEventListener. run. eexists. split; [reflexivity|].
  assert (this s4 = set_boxes (boxes (this s)
            ++ [Created k; Created (S k); Created (S (S k));
                Created (S (S (S k)))]) (this s)) as Ht.
  { rewrite Ht4, Ht3, Ht2, Ht1, Ht0, Hk3, Hk2, Hk1, Hk0. cbn.
    by rewrite <- !app_assoc. }
  assert (childNodes (doc s4) = childNodes (doc s)
            ++ [Created k; Created (S k); Created (S (S k));
                Created (S (S (S k)))]) as Hc.
  { rewrite Hc4, Hc3, Hc2, Hc1, Hc0, Hk3, Hk2, Hk1, Hk0.
    by rewrite <- !app_assoc. }
  assert (created (doc s4) = S (S (S (S k)))) as Hk.
  { by rewrite Hk4, Hk3, Hk2, Hk1, Hk0. }
  split; [|split; [|split]].
  - unfold structure. rewrite <- Ht, <- Hc, <- Hk.
    cbn. by repeat destruct (decide _).
  - intros j. cbn. repeat destruct (decide _); apply Hf4.
  - cbn. repeat destruct (decide _); cbn in *;
      rewrite ?elem_of_app, ?list_elem_of_singleton in *; tauto.
  - cbn. repeat destruct (decide _); cbn in *;
      rewrite ?elem_of_app, ?list_elem_of_singleton in *; tauto.
Qed.

Lemma showSizeDisplay_spec s :
  fresh_ids (doc s) ->
  displaySize (options (this s)) = true ->
  exists s',
    showSizeDisplay s = (Ok tt, s')
    /\ structure s'
       = (set_display (Some (Created (created (doc s)))) (this s),
          childNodes (doc s) ++ [Created (created (doc s))],
          S (created (doc s)))
    /\ fresh_ids (doc s').
Proof.
  intros Hf Hds. unfold showSizeDisplay. run. rewrite Hds. cbn [negb].
  rewrite bind_createElement. run.
  match goal with
  | |- context [(extend ?n ?srcs ≫= ?k) ?s1] =>
      destruct (styles_only_extend (fun _ => True) n srcs s1 I)
        as (s2 & Hr & (Ht & Hc & Hk)%structure_eq);
      rewrite (bind_Ok _ _ _ _ _ Hr)
  end.
  unfold appendChild. eexists. split; [reflexivity|].
  cbn in Ht, Hc, Hk. split.
  - unfold structure. cbn. rewrite Ht, Hc, Hk.
    by rewrite appendChild_fresh.
  - intros j. cbn. rewrite Hc, Hk, appendChild_fresh by done.
    intros [Hj|[= ->]%list_elem_of_singleton]%elem_of_app;
      try apply Hf in Hj; lia.
Qed.

(** [show] from a state without handles, with the size display enabled. *)
Lemma show_spec i s :
  fresh_ids (doc s) ->
  displaySize (options (this s)) = true ->
  boxes (this s) = [] ->
  let k := created (doc s) in
  exists s',
    show layout i s = (Ok tt, s')
    /\ structure s'
       = ({| options := options (this s); img := Some i;
             boxes := [Created k; Created (S k); Created (S (S k));
                       Created (S (S (S k)))];
             dragBox := dragBox (this s); dragStartX := dragStartX (this s);
             preDragWidth := preDragWidth (this s);
             display := Some (Created (S (S (S (S k))))) |},
          childNodes (doc s)
          ++ [Created k; Created (S k); Created (S (S k));
              Created (S (S (S k))); Created (S (S (S (S k))))],
          S (S (S (S (S k)))))
    /\ fresh_ids (doc s').
Proof.
  intros Hf Hds Hb k. unfold show. rewrite bind_modify.
  set (s0 := with_this (set_img (Some i)) s).
  destruct (showResizers_spec s0 Hf)
    as (s1 & Hr1 & (Ht1 & Hc1 & Hk1)%structure_is & Hf1 & _).
  ran Hr1.
  destruct (showSizeDisplay_spec s1 Hf1)
    as (s2 & Hr2 & (Ht2 & Hc2 & Hk2)%structure_is & Hf2).
  { by rewrite Ht1. }
  ran Hr2.
  cbn [structure fst snd] in *.
  assert (this s2
          = {| options := options (this s); img := Some i;
               boxes := [Created k; Created (S k); Created (S (S k));
                         Created (S (S (S k)))];
               dragBox := dragBox (this s); dragStartX := dragStartX (this s);
               preDragWidth := preDragWidth (this s);
               display := Some (Created (S (S (S (S k))))) |}) as Ht.
  { rewrite Ht2, Ht1, Hk1. subst s0. cbn. by rewrite Hb. }
  run. rewrite Ht. cbn [img]. run. unfold boundingClientRect. run.
  destruct (styles_only_positionBoxes
              (layout (doc s2) i) s2) as (s3 & Hr3 & Hs3).
  { cbn. rewrite Ht. cbn. lia. }
  ran Hr3.
  destruct (styles_only_positionSizeDisplay
              (layout (doc s2) i) s3 I) as (s4 & Hr4 & Hs4).
  exists s4. split; [exact Hr4|].
  apply structure_eq in Hs3 as (Ht3 & Hc3 & Hk3).
  apply structure_eq in Hs4 as (Ht4 & Hc4 & Hk4).
  split.
  - unfold structure. rewrite Ht4, Ht3, Ht, Hc4, Hc3, Hc2, Hc1, Hk4, Hk3, Hk2, Hk1.
    subst s0. cbn. by rewrite <- app_assoc.
  - intros j. rewrite Hc4, Hc3, Hk4, Hk3. apply Hf2.
Qed.

Lemma removeChild_spec c s :
  c ∈ childNodes (doc s) ->
  removeChild (Some c) s
  = (Ok tt, with_doc (fun d =>
       set_childNodes (filter (fun c' => c' <> c) (childNodes d)) d) s).
Proof. intros Hc. unfold removeChild. by rewrite decide_True. Qed.

Lemma forEach_removeChild bs s :
  NoDup bs ->
  (forall b, b ∈ bs -> b ∈ childNodes (doc s)) ->
  exists s',
    forEach (fun box => removeChild (Some box)) bs s = (Ok tt, s')
    /\ this s' = this s
    /\ childNodes (doc s') = filter (fun n => n ∉ bs) (childNodes (doc s))
    /\ created (doc s') = created (doc s)
    /\ listeners (doc s') = listeners (doc s).
Proof.
  revert s. induction bs as [|b bs IH]; intros s Hnd Hin; cbn [forEach].
  - exists s. repeat split; try done. symmetry. apply filter_all.
    intros x _. apply not_elem_of_nil.
  - apply NoDup_cons in Hnd as [Hb Hnd].
    rewrite (bind_Ok _ _ _ _ _ (removeChild_spec b s (Hin b (list_elem_of_here _ _)))).
    destruct (IH (with_doc (fun d =>
       set_childNodes (filter (fun c' => c' <> b) (childNodes d)) d) s) Hnd)
      as (s' & Hr & Ht & Hc & Hk & Hl).
    { intros b' Hb'. cbn. apply list_elem_of_filter. split.
      - intros ->. done.
      - apply Hin. by right. }
    exists s'. split; [exact Hr|]. repeat split; try done.
    rewrite Hc. cbn. rewrite list_filter_filter.
    apply list_filter_iff. intros x. rewrite elem_of_cons. tauto.
Qed.

(** [hide] with handles and a size display that are in the document. *)
Lemma hide_spec s i d :
  img (this s) = Some i ->
  display (this s) = Some d ->
  NoDup (overlays (this s)) ->
  (forall b, b ∈ overlays (this s) -> b ∈ childNodes (doc s)) ->
  exists s',
    hide s = (Ok tt, s')
    /\ structure s'
       = ({| options := options (this s); img := None; boxes := [];
             dragBox := None; dragStartX := None; preDragWidth := None;
             display := None |},
          filter (fun n => n ∉ overlays (this s)) (childNodes (doc s)),
          created (doc s)).
Proof.
  intros Hi Hd Hnd Hin. unfold overlays in *. rewrite Hd in *. cbn [option_list] in *.
  apply NoDup_app in Hnd as (Hndb & Hbd & _).
  unfold hide, hideResizers, removeEventListener. run.
  match goal with
  | |- context [(setUserSelect "" ≫= _) ?s0] =>
      destruct (styles_only_setUserSelect (fun _ => True) "" s0 I)
        as (s1 & Hr1 & (Ht1 & Hc1 & Hk1)%structure_eq);
      rewrite (bind_Ok _ _ _ _ _ Hr1); cbv beta
  end.
  destruct (styles_only_setCursor "" s1) as (s2 & Hr2 & (Ht2 & Hc2 & Hk2)%structure_eq).
  { cbn. rewrite Ht1. cbn. by rewrite Hi. }
  ran Hr2. run.
  cbn in Ht1, Hc1, Hk1.
  assert (this s2 = this s) as Ht by congruence.
  assert (childNodes (doc s2) = childNodes (doc s)) as Hc by congruence.
  assert (created (doc s2) = created (doc s)) as Hk by congruence.
  rewrite Ht.
  destruct (forEach_removeChild (boxes (this s)) s2 Hndb)
    as (s3 & Hr3 & Ht3 & Hc3 & Hk3 & _).
  { intros b Hb. rewrite Hc. apply Hin, elem_of_app. by left. }
  ran Hr3. run.
  unfold hideSizeDisplay. run. cbn [this with_this display set_boxes
    set_preDragWidth set_dragStartX set_dragBox].
  rewrite Ht3, Ht, Hd.
  match goal with
  | |- context [(removeChild (Some d) ≫= _) ?s4] =>
      assert (d ∈ childNodes (doc s4)) as Hdin
  end.
  { cbn. rewrite Hc3, Hc. apply list_elem_of_filter. split.
    - intros Hdb. apply (Hbd d Hdb). by left.
    - apply Hin, elem_of_app. right. by left. }
  ran (removeChild_spec d _ Hdin). run.
  eexists. split; [reflexivity|].
  unfold structure. cbn. rewrite Ht3, Ht, Hc3, Hc, Hk3, Hk. f_equal. f_equal.
  rewrite list_filter_filter. apply list_filter_iff.
  intros x. rewrite elem_of_app, list_elem_of_singleton. tauto.
Qed.

(** ** The overlays and the selected image *)

#[local] Instance same_overlays_preorder : PreOrder same_overlays.
Proof.
  split.
  - by intros s.
  - intros s1 s2 s3 (?&?&?&?&?&?) (?&?&?&?&?&?). repeat split; congruence.
Qed.

Lemma consistent_same_overlays s s' :
  same_overlays s s' -> consistent s -> consistent s'.
Proof.
  intros (Hi & Hb & Hd & _ & Hc & Hk) [Hf Ho Hn Hs].
  unfold overlays in *. split; unfold overlays, fresh_ids;
    rewrite ?Hi, ?Hb, ?Hd, ?Hc, ?Hk; done.
Qed.

Lemma with_doc_overlays f :
  (forall d, childNodes (f d) = childNodes d /\ created (f d) = created d) ->
  keeps same_overlays (modify (with_doc f)).
Proof.
  intros Hf s. destruct (Hf (doc s)) as [Hc Hk]. by repeat split.
Qed.

Lemma with_this_overlays f :
  (forall t, img (f t) = img t /\ boxes (f t) = boxes t
             /\ display (f t) = display t /\ options (f t) = options t) ->
  keeps same_overlays (modify (with_this f)).
Proof. intros Hf s. destruct (Hf (this s)) as (?&?&?&?). by repeat split. Qed.

Lemma setStyle_overlays n p v : keeps same_overlays (setStyle n p v).
Proof. by apply with_doc_overlays. Qed.

Lemma addEventListener_overlays t ty h c :
  keeps same_overlays (addEventListener t ty h c).
Proof.
  intros s. unfold addEventListener, modify, with_doc. cbn [snd].
  by destruct (decide _).
Qed.

Lemma removeEventListener_overlays t ty h :
  keeps same_overlays (removeEventListener t ty h).
Proof. by apply with_doc_overlays. Qed.

#[local] Hint Resolve setStyle_overlays addEventListener_overlays
  removeEventListener_overlays : frames.
#[local] Hint Extern 1 (keeps same_overlays (modify (with_this _))) =>
  apply with_this_overlays; done : frames.
#[local] Hint Extern 1 (keeps same_overlays (modify (with_doc (update _ _)))) =>
  apply with_doc_overlays; done : frames.

Lemma setCursor_overlays v : keeps same_overlays (setCursor v).
Proof. unfold setCursor. frame. Qed.

Lemma extend_overlays n srcs : keeps same_overlays (extend n srcs).
Proof. unfold extend. frame. Qed.

#[local] Hint Resolve setCursor_overlays extend_overlays : frames.

Lemma positionBoxes_overlays rect : keeps same_overlays (positionBoxes rect).
Proof. unfold positionBoxes. frame. Qed.

Lemma positionSizeDisplay_overlays rect :
  keeps same_overlays (positionSizeDisplay layout rect).
Proof.
  unfold positionSizeDisplay, getCurrentSize, boundingClientRect. frame.
Qed.

#[local] Hint Resolve positionBoxes_overlays positionSizeDisplay_overlays : frames.

Lemma handleMousedown_overlays evt : keeps same_overlays (handleMousedown evt).
Proof. unfold handleMousedown, getStyle. frame. Qed.

Lemma handleMouseup_overlays : keeps same_overlays handleMouseup.
Proof. unfold handleMouseup. frame. Qed.

Lemma handleDrag_overlays evt : keeps same_overlays (handleDrag layout evt).
Proof. unfold handleDrag, boundingClientRect. frame. Qed.

Lemma filter_none {A} (P : A -> Prop) `{!forall x, Decision (P x)} (l : list A) :
  (forall x, x ∈ l -> ~ P x) -> filter P l = [].
Proof.
  induction l as [|x l IH]; intros Hl; [done|].
  rewrite filter_cons_False by (apply Hl; left).
  apply IH. intros y Hy. apply Hl. by right.
Qed.

Lemma filter_ext_in {A} (P Q : A -> Prop)
    `{!forall x, Decision (P x)} `{!forall x, Decision (Q x)} (l : list A) :
  (forall x, x ∈ l -> P x <-> Q x) -> filter P l = filter Q l.
Proof.
  induction l as [|x l IH]; intros Hl; [done|].
  rewrite !filter_cons. rewrite IH by (intros y Hy; apply Hl; by right).
  destruct (decide (P x)) as [HP|HP], (decide (Q x)) as [HQ|HQ]; try done;
    exfalso; apply (Hl x (list_elem_of_here _ _)) in HP || apply HP;
    try done; by apply (Hl x (list_elem_of_here _ _)).
Qed.

Lemma consistent_children s b :
  consistent s -> b ∈ overlays (this s) -> b ∈ childNodes (doc s).
Proof.
  intros [_ Ho _ _] Hb. rewrite <- Ho in Hb.
  by apply list_elem_of_filter in Hb as [_ Hb].
Qed.

(** With a size display, a deselection runs to its end and takes every
    overlay out of the document; the rest of the document stays. *)
Lemma hide_consistent s i :
  consistent s ->
  img (this s) = Some i ->
  exists s',
    hide s = (Ok tt, s')
    /\ consistent s'
    /\ this s'
       = {| options := options (this s); img := None; boxes := [];
            dragBox := None; dragStartX := None; preDragWidth := None;
            display := None |}
    /\ childNodes (doc s')
       = filter (fun n => ~ is_created n) (childNodes (doc s)).
Proof.
  intros Hcons Hi. pose proof Hcons as [Hf Ho Hn Hs].
  rewrite Hi in Hs. destruct Hs as [_ Hd].
  destruct (display (this s)) as [d|] eqn:Hdisp; [clear Hd|done].
  destruct (hide_spec s i d Hi Hdisp Hn) as (s' & Hr & (Ht & Hc & Hk)%structure_is).
  { intros b. by apply consistent_children. }
  cbn [fst snd] in Ht, Hc, Hk.
  assert (childNodes (doc s')
          = filter (fun n => ~ is_created n) (childNodes (doc s))) as Hc'.
  { rewrite Hc. apply filter_ext_in. intros n Hin.
    rewrite <- Ho, list_elem_of_filter. tauto. }
  exists s'. split; [exact Hr|]. split; [|done].
  split.
  - intros j Hj. rewrite Hc' in Hj. apply list_elem_of_filter in Hj as [_ Hj].
    rewrite Hk. by apply Hf.
  - rewrite Ht, Hc'. unfold overlays. cbn.
    apply filter_none. intros n [Hn' _]%list_elem_of_filter. tauto.
  - rewrite Ht. constructor.
  - by rewrite Ht.
Qed.

(** From the idle state, a selection runs to its end and puts four handles
    and a size display into the document. *)
Lemma show_consistent s i :
  consistent s ->
  displaySize (options (this s)) = true ->
  img (this s) = None ->
  let k := created (doc s) in
  exists s',
    show layout i s = (Ok tt, s')
    /\ consistent s'
    /\ this s'
       = {| options := options (this s); img := Some i;
            boxes := [Created k; Created (S k); Created (S (S k));
                      Created (S (S (S k)))];
            dragBox := dragBox (this s); dragStartX := dragStartX (this s);
            preDragWidth := preDragWidth (this s);
            display := Some (Created (S (S (S (S k))))) |}
    /\ childNodes (doc s')
       = childNodes (doc s) ++ overlays (this s').
Proof.
  intros [Hf Ho Hn Hs] Hds Hi k. rewrite Hi in Hs. destruct Hs as [Hb Hd].
  destruct (show_spec i s Hf Hds Hb)
    as (s' & Hr & (Ht & Hc & Hk)%structure_is & Hf').
  cbn [fst snd] in Ht, Hc, Hk. fold k in Ht, Hc, Hk.
  exists s'. split; [exact Hr|].
  assert (overlays (this s')
          = [Created k; Created (S k); Created (S (S k));
             Created (S (S (S k))); Created (S (S (S (S k))))]) as Hov.
  { by rewrite Ht. }
  split; [|split; [done|by rewrite Hov]].
  split; [done|..].
  - rewrite Hc, filter_app, Ho, Hov. unfold overlays. by rewrite Hb, Hd.
  - rewrite Hov. repeat (apply NoDup_cons; split;
      [rewrite ?elem_of_cons, elem_of_nil; intros H;
       repeat destruct H as [H|H]; try done; injection H; lia|]).
    constructor.
  - rewrite Ht. cbn. done.
Qed.

Lemma is_IMG_target t : is_IMG t = true -> exists n, t = Some n.
Proof. destruct t as [n|]; [eauto|done]. Qed.

(** With the size display enabled, a click always runs to its end, keeps
    the overlays consistent and leaves selected the image that was clicked,
    or nothing after a click elsewhere; a click on the selected image
    changes nothing. *)
Lemma handleClick_consistent evt s :
  consistent s ->
  displaySize (options (this s)) = true ->
  exists s',
    handleClick layout evt s = (Ok tt, s')
    /\ consistent s'
    /\ options (this s') = options (this s)
    /\ img (this s') = (if is_IMG (target evt) then target evt else None)
    /\ (is_IMG (target evt) = true -> img (this s) = target evt -> s' = s).
Proof.
  intros Hcons Hds. unfold handleClick. rewrite bind_gets.
  destruct (is_IMG (target evt)) eqn:Himg.
  - destruct (is_IMG_target _ Himg) as [t Ht]. rewrite Ht. cbn [deref].
    destruct (decide (img (this s) = Some t)) as [Hsel|Hsel].
    { by exists s. }
    destruct (img (this s)) as [i|] eqn:Hi.
    + rewrite decide_True by done.
      destruct (hide_consistent s i Hcons Hi) as (s1 & Hr1 & Hc1 & Ht1 & _).
      ran Hr1. run.
      destruct (show_consistent s1 t Hc1) as (s2 & Hr2 & Hc2 & Ht2 & _);
        [by rewrite Ht1..|].
      exists s2. split; [exact Hr2|]. split; [done|].
      rewrite Ht2, Ht1. cbn. repeat split; congruence.
    + rewrite decide_False by (intros H; by apply H). run.
      destruct (show_consistent s t Hcons Hds Hi) as (s2 & Hr2 & Hc2 & Ht2 & _).
      exists s2. split; [exact Hr2|]. split; [done|].
      rewrite Ht2. cbn. repeat split; congruence.
  - destruct (img (this s)) as [i|] eqn:Hi.
    + rewrite decide_True by done.
      destruct (hide_consistent s i Hcons Hi) as (s1 & Hr1 & Hc1 & Ht1 & _).
      exists s1. split; [exact Hr1|]. split; [done|].
      rewrite Ht1. cbn. repeat split; done.
    + rewrite decide_False by (intros H; by apply H).
      exists s. split; [done|]. split; [exact Hcons|].
      split; [done|]. split; [exact Hi|done].
Qed.

(** X16: with the size display enabled, each trigger of a deselection (a
    keyup, an input, a click that is not on an image) runs to its end: the
    overlays leave the document, and the selection and the drag session
    are cleared. *)
Lemma deselect_with_size_display ev s i :
  ev = Keyup \/ ev = Input
  \/ (exists evt, ev = Click evt /\ is_IMG (target evt) = false) ->
  consistent s ->
  img (this s) = Some i ->
  exists s',
    handle layout ev s = (Ok tt, s')
    /\ this s'
       = {| options := options (this s); img := None; boxes := [];
            dragBox := None; dragStartX := None; preDragWidth := None;
            display := None |}
    /\ childNodes (doc s')
       = filter (fun n => ~ is_created n) (childNodes (doc s))
    /\ consistent s'.
Proof.
  intros Hev Hcons Hi.
  destruct (hide_consistent s i Hcons Hi) as (s1 & Hr1 & Hc1 & Ht1 & Hch1).
  exists s1. split; [|done].
  destruct Hev as [->|[->|(evt & -> & Himg)]]; cbn [handle].
  - unfold checkImage. rewrite bind_gets, Hi. by rewrite decide_True.
  - unfold checkImage. rewrite bind_gets, Hi. by rewrite decide_True.
  - unfold handleClick. rewrite bind_gets, Himg, Hi. by rewrite decide_True.
Qed.

(** The consistency of the overlays is an invariant of the module when the
    size display is enabled. *)
Lemma handle_consistent ev s :
  consistent s ->
  displaySize (options (this s)) = true ->
  consistent (snd (handle layout ev s))
  /\ displaySize (options (this (snd (handle layout ev s)))) = true.
Proof.
  intros Hcons Hds.
  assert (forall m : M unit, keeps same_overlays m ->
            consistent (snd (m s))
            /\ displaySize (options (this (snd (m s)))) = true) as Hkeep.
  { intros m Hm. split.
    - exact (consistent_same_overlays s _ (Hm s) Hcons).
    - destruct (Hm s) as (_ & _ & _ & -> & _). done. }
  assert (consistent (snd (checkImage s))
          /\ displaySize (options (this (snd (checkImage s)))) = true) as Hcheck.
  { unfold checkImage. rewrite bind_gets.
    destruct (img (this s)) as [i|] eqn:Hi.
    - rewrite decide_True by done.
      destruct (hide_consistent s i Hcons Hi) as (s1 & -> & Hc1 & Ht1 & _).
      cbn [snd]. split; [done|]. by rewrite Ht1.
    - rewrite decide_False by (intros H; by apply H). done. }
  destruct ev as [evt|evt|evt| | |]; cbn [handle]; try done.
  - destruct (handleClick_consistent evt s Hcons Hds)
      as (s' & -> & Hc & Ho & _).
    cbn [snd]. split; [done|]. by rewrite Ho.
  - apply Hkeep, handleMousedown_overlays.
  - apply Hkeep, handleDrag_overlays.
  - apply Hkeep, handleMouseup_overlays.
Qed.

Lemma handle_all_consistent evs s :
  consistent s ->
  displaySize (options (this s)) = true ->
  consistent (handle_all layout evs s).
Proof.
  revert s. induction evs as [|ev evs IH]; intros s Hcons Hds; [done|].
  cbn. apply IH; by apply handle_consistent.
Qed.

Lemma constructor_consistent opts d :
  fresh_ids d ->
  filter is_created (childNodes d) = [] ->
  consistent (constructor opts d).
Proof.
  intros Hf Hc. unfold constructor, addEventListener, modify, with_doc.
  cbn [snd this doc]. destruct (decide _); split; cbn; try done; constructor.
Qed.

(** X20: once [showResizers] has registered them, the keyup and input
    watchers stay registered whatever events follow: no handler of the
    module removes a listener of the capture phase. *)
Lemma watchers_stay s evs :
  fresh_ids (doc s) ->
  let s' := handle_all layout evs (snd (showResizers s)) in
  keyup_listener ∈ listeners (doc s') /\ input_listener ∈ listeners (doc s').
Proof.
  intros Hf. destruct (showResizers_spec s Hf) as (s1 & -> & _ & _ & Hk & Hi).
  cbn [snd]. revert s1 Hk Hi. induction evs as [|ev evs IH]; intros s1 Hk Hi.
  - done.
  - cbn. apply IH; by apply (handlers_capture ev s1).
Qed.

(** X9: a drag that ends while the image is still selected leaves no
    listener of its own: after a mousedown and the mouseup that follows it,
    neither the mousemove nor the mouseup listener is registered on the
    document. *)
Lemma drag_listeners_removed evt s i :
  img (this s) = Some i ->
  let s' := snd (handleMouseup (snd (handleMousedown evt s))) in
  (mousemove_listener ∉ listeners (doc s'))
  /\ (mouseup_listener ∉ listeners (doc s')).
Proof.
  intros Hi s'.
  assert (img (this (snd (handleMousedown evt s))) = Some i) as Hi'.
  { destruct (handleMousedown_overlays evt s) as (-> & _). done. }
  subst s'. revert Hi'. generalize (snd (handleMousedown evt s)). intros s1 Hi1.
  unfold handleMouseup, setCursor, removeEventListener. run. rewrite Hi1. run.
  cbn [snd doc with_doc listeners set_listeners].
  fold mousemove_listener mouseup_listener.
  split; intros [Hne Hin]%list_elem_of_filter; [|done].
  by apply list_elem_of_filter in Hin as [Hne' _].
Qed.

(** C7, amended: a mouseup while an image is selected sets the cursor of
    the body, the image and the editor root back to [''], removes the
    mousemove and mouseup listeners of the drag, and changes nothing
    else: the selected image, its handles and size display, and the three
    fields of the drag session are as before.  Those three fields are
    cleared by [hideResizers]. *)
Theorem handleMouseup_selected s i :
  img (this s) = Some i ->
  (exists s',
     handleMouseup s = (Ok tt, s') /\
     this s' = this s /\
     childNodes (doc s') = childNodes (doc s) /\
     listeners (doc s')
     = filter (fun l => l <> mouseup_listener)
         (filter (fun l => l <> mousemove_listener) (listeners (doc s))) /\
     forall n, elements (doc s') n
               = if bool_decide (n ∈ [Body; i; Root])
                 then cursor_reset (elements (doc s) n)
                 else elements (doc s) n) /\
  (forall s', hideResizers s = (Ok tt, s') ->
     dragBox (this s') = None /\ dragStartX (this s') = None
     /\ preDragWidth (this s') = None).
Proof.
  intros Hi. split.
  - unfold handleMouseup, setCursor, removeEventListener. run.
    rewrite Hi. run. eexists. split; [reflexivity|].
    split; [done|]. split; [done|]. split; [done|].
    intros n. rewrite !doc_with_doc. cbn [elements set_listeners].
    fold cursor_reset. rewrite !elements_update.
    case_bool_decide as Hn; rewrite !elem_of_cons, elem_of_nil in Hn;
      repeat case_decide; subst; rewrite ?cursor_reset_twice;
      try done; intuition congruence.
  - intros s' Hh. apply hideResizers_clears in Hh. tauto.
Qed.

(** ** A drag from its mousedown on *)

#[local] Instance same_instance_preorder : PreOrder same_instance.
Proof.
  split.
  - by intros s.
  - intros s1 s2 s3 H12 H23. unfold same_instance in *. congruence.
Qed.

Lemma with_doc_instance f : keeps same_instance (modify (with_doc f)).
Proof. done. Qed.

Lemma setStyle_instance n p v : keeps same_instance (setStyle n p v).
Proof. done. Qed.

Lemma setWidth_instance n r : keeps same_instance (setWidth n r).
Proof. done. Qed.

#[local] Hint Resolve with_doc_instance setStyle_instance
  setWidth_instance : frames.

Lemma extend_instance n srcs : keeps same_instance (extend n srcs).
Proof. unfold extend. frame. Qed.

#[local] Hint Resolve extend_instance : frames.

Lemma positionBoxes_instance rect : keeps same_instance (positionBoxes rect).
Proof. unfold positionBoxes. frame. Qed.

Lemma positionSizeDisplay_instance rect :
  keeps same_instance (positionSizeDisplay layout rect).
Proof.
  unfold positionSizeDisplay, getCurrentSize, boundingClientRect. frame.
Qed.

#[local] Hint Resolve positionBoxes_instance positionSizeDisplay_instance : frames.

Lemma handleDrag_instance evt : keeps same_instance (handleDrag layout evt).
Proof. unfold handleDrag, boundingClientRect. frame. Qed.

Lemma mousemoves_instance evts s :
  this (handle_all layout (map Mousemove evts) s) = this s.
Proof.
  revert s. induction evts as [|evt evts IH]; intros s; [done|].
  change (this (handle_all layout (map Mousemove evts)
                  (snd (handleDrag layout evt s))) = this s).
  rewrite IH. apply handleDrag_instance.
Qed.

(** X6: [handleDrag] changes no field of the instance, so during a drag
    every mousemove computes the width from the values that the mousedown
    recorded: after any number of mousemoves the width of the selected
    image is what the last one alone gives, whether or not the handles
    could be repositioned, as long as that is a width an image can have,
    a whole number from 0 to 2147483647. *)
Theorem drag_last_move_counts evts evt s i :
  img (this s) = Some i ->
  let s' := handle_all layout (map Mousemove evts ++ [Mousemove evt]) s in
  this s' = this s
  /\ forall z,
       dragged_width (this s) (clientX evt) = Int z ->
       0 <= z <= 2147483647 ->
       width (elements (doc s') i) = Int z.
Proof.
  intros Hi s'. subst s'. unfold handle_all. rewrite fold_left_app.
  fold (handle_all layout (map Mousemove evts) s). cbn [fold_left handle].
  pose proof (mousemoves_instance evts s) as Ht.
  split.
  - rewrite <- Ht. apply handleDrag_instance.
  - intros z Hz Hr.
    rewrite handleDrag_width with (i := i) by (by rewrite Ht).
    rewrite Ht, Hz. by apply stored_width_in_range.
Qed.

(** ** Whole numbers

    A whole number below [2^53] is a double, and one beyond is kept: sums,
    differences and products of whole numbers are exact. *)

Lemma nearest_even_int x z : (x == inject_Z z)%Q -> nearest_even x = z.
Proof.
  intros Hx. unfold nearest_even.
  assert (Qfloor x = z) as -> by (rewrite (Qfloor_comp _ _ Hx); apply Qfloor_Z).
  assert ((x - inject_Z z ?= 1 # 2)%Q = Lt) as ->; [|done].
  apply Qlt_alt.
  assert (x - inject_Z z == 0)%Q as -> by (rewrite Hx; ring).
  reflexivity.
Qed.

Lemma binary64_int q z : (q == inject_Z z)%Q -> (binary64 q == inject_Z z)%Q.
Proof.
  intros Hq. unfold binary64.
  destruct (Qeq_bool q 0) eqn:H0.
  { apply Qeq_bool_iff in H0. by rewrite <- Hq, H0. }
  destruct (Qle_bool _ _); [done|].
  set (k := Z.max 0 (52 - Z.max (ilog2 q) (-1022))).
  assert (0 < 2 ^ k) as Hk by (apply Z.pow_pos_nonneg; lia).
  rewrite (nearest_even_int _ (z * 2 ^ k)).
  - rewrite inject_Z_mult. field. intros H.
    assert (inject_Z 0 < inject_Z (2 ^ k))%Q as Hlt
      by (rewrite <- Zlt_Qlt; exact Hk).
    rewrite H in Hlt. by apply Qlt_irrefl in Hlt.
  - by rewrite Hq, inject_Z_mult.
Qed.

Lemma add_int x y a b :
  num_eq x (Fin (inject_Z a)) -> num_eq y (Fin (inject_Z b)) ->
  num_eq (add x y) (Fin (inject_Z (a + b))).
Proof.
  destruct x as [p| | |], y as [q| | |]; try done. cbn [num_eq add].
  intros Hp Hq. apply binary64_int. by rewrite Hp, Hq, inject_Z_plus.
Qed.

Lemma sub_int x y a b :
  num_eq x (Fin (inject_Z a)) -> num_eq y (Fin (inject_Z b)) ->
  num_eq (sub x y) (Fin (inject_Z (a - b))).
Proof.
  intros Hx Hy. unfold sub. apply (add_int _ _ a (- b)); [done|].
  destruct y as [q| | |]; try done. cbn [num_eq neg] in *.
  by rewrite Hy, inject_Z_opp.
Qed.

Lemma num_eq_refl_int z : num_eq (Fin (inject_Z z)) (Fin (inject_Z z)).
Proof. cbn. reflexivity. Qed.

Lemma Math_round_inject z : Math_round (Fin (inject_Z z)) = Int z.
Proof.
  cbn [Math_round]. f_equal. unfold Qfloor, Qplus, inject_Z. cbn [Qnum Qden].
  symmetry. apply (Z.div_unique _ _ _ 1); lia.
Qed.

Lemma setCursor_widths v : keeps same_widths (setCursor v).
Proof. unfold setCursor. frame. Qed.

#[local] Instance same_listeners_preorder : PreOrder same_listeners.
Proof.
  split.
  - by intros s.
  - intros s1 s2 s3 H12 H23. unfold same_listeners in *. congruence.
Qed.

Lemma setStyle_listeners n p v : keeps same_listeners (setStyle n p v).
Proof. done. Qed.

#[local] Hint Resolve setStyle_listeners : frames.

Lemma setCursor_listeners v : keeps same_listeners (setCursor v).
Proof. unfold setCursor. frame. Qed.

(** [handleMousedown] while an image is selected. *)
Lemma handleMousedown_run evt s i b :
  img (this s) = Some i ->
  target evt = Some b ->
  let e := elements (doc s) i in
  exists s',
    handleMousedown evt s = (Ok tt, s')
    /\ this s'
       = set_preDragWidth
           (Some (if truthy (width e) then of_rounded (width e)
                  else of_N (naturalWidth e)))
           (set_dragStartX (Some (clientX evt))
              (set_dragBox (Some b) (this s)))
    /\ childNodes (doc s') = childNodes (doc s)
    /\ same_widths s s'
    /\ mousemove_listener ∈ listeners (doc s')
    /\ mouseup_listener ∈ listeners (doc s')
    /\ (forall l, l ∈ listeners (doc s) -> l ∈ listeners (doc s')).
Proof.
  intros Hi Hb e. unfold handleMousedown. run.
  cbn [this with_this img set_dragStartX set_dragBox]. rewrite Hi. run.
  cbn [this with_this dragBox set_preDragWidth set_dragStartX set_dragBox doc].
  rewrite Hb. run. unfold getStyle. run.
  match goal with
  | |- context [(setCursor ?c ≫= _) ?s0] =>
      destruct (styles_only_setCursor c s0)
        as (s1 & Hr1 & (Ht1 & Hc1 & Hk1)%structure_eq);
      [cbn; by rewrite Hi|];
      pose proof (setCursor_widths c s0) as Hw1;
      rewrite Hr1 in Hw1; cbn [snd] in Hw1;
      pose proof (setCursor_listeners c s0) as Hl1;
      rewrite Hr1 in Hl1; unfold same_listeners in Hl1;
      cbn [snd doc with_this] in Hl1;
      rewrite (bind_Ok _ _ _ _ _ Hr1); cbv beta
  end.
  cbn in Ht1, Hc1.
  unfold addEventListener. run. eexists. split; [reflexivity|].
  fold mousemove_listener mouseup_listener.
  split; [exact Ht1|]. cbn [doc with_doc].
  split; [repeat destruct (decide _); exact Hc1|].
  split.
  { intros n. cbn [doc with_doc]. repeat destruct (decide _); exact (Hw1 n). }
  repeat destruct (decide _); cbn [listeners set_listeners] in *;
    (split; [|split; [|intros l Hl; rewrite <- Hl1 in Hl]]);
    rewrite ?elem_of_app, ?list_elem_of_singleton in *; tauto.
Qed.

(** X7: a mousedown on a handle while an image is selected returns
    normally.  It records the handle, the pointer position and the width
    before the drag, which is [img.width], or [img.naturalWidth] when that
    is [0]; it gives the body, the image and the editor root the cursor of
    the handle; it registers the mousemove and mouseup listeners of the
    drag and removes none; the other fields of the instance, the children
    of the body and the width of every element are as before. *)
Theorem handleMousedown_selected evt s i b :
  img (this s) = Some i ->
  target evt = Some b ->
  let e := elements (doc s) i in
  let cursor := default "" (style (elements (doc s) b) !! "cursor") in
  exists s',
    handleMousedown evt s = (Ok tt, s')
    /\ this s'
       = set_preDragWidth
           (Some (if truthy (width e) then of_rounded (width e)
                  else of_N (naturalWidth e)))
           (set_dragStartX (Some (clientX evt))
              (set_dragBox (Some b) (this s)))
    /\ childNodes (doc s') = childNodes (doc s)
    /\ same_widths s s'
    /\ (forall n, n ∈ [Body; i; Root] ->
        style (elements (doc s') n) !! "cursor" = Some cursor)
    /\ mousemove_listener ∈ listeners (doc s')
    /\ mouseup_listener ∈ listeners (doc s')
    /\ (forall l, l ∈ listeners (doc s) -> l ∈ listeners (doc s')).
Proof.
  intros Hi Hb e cursor. unfold handleMousedown. run.
  cbn [this with_this img set_dragStartX set_dragBox]. rewrite Hi. run.
  cbn [this with_this dragBox set_preDragWidth set_dragStartX set_dragBox doc].
  rewrite Hb. run. unfold getStyle. run.
  cbn [doc with_this]. fold e cursor.
  unfold setCursor. run.
  cbn [this with_this img set_preDragWidth set_dragStartX set_dragBox].
  rewrite Hi. run. unfold addEventListener. run.
  eexists. split; [reflexivity|].
  fold mousemove_listener mouseup_listener.
  split; [reflexivity|]. cbn [doc with_doc with_this].
  split; [by repeat destruct (decide _)|].
  split.
  { intros n. cbn [doc with_doc with_this].
    repeat destruct (decide _); cbn [elements set_listeners];
      by rewrite !update_width. }
  split.
  { intros n Hn. rewrite !elem_of_cons, elem_of_nil in Hn.
    repeat destruct (decide _); cbn [elements set_listeners];
      rewrite !elements_update; repeat case_decide; subst;
      cbn [style set_style]; rewrite ?lookup_insert_eq;
      try done; intuition congruence. }
  repeat destruct (decide _); cbn [listeners set_listeners update set_elements] in *;
    (split; [|split; [|intros l Hl]]);
    rewrite ?elem_of_app, ?list_elem_of_singleton in *; tauto.
Qed.

(** X8: a handle of the right side is pressed at [x0] on an image whose
    width [w] is not [0], and the pointer then moves to [x0 + d], both
    positions being whole numbers of 32 bits as [clientX] is.  When [w + d]
    is a width an image can have, a whole number from 0 to 2147483647, the
    image is [w + d] wide, and as wide as before when the pointer has not
    moved. *)
Theorem drag_right_handle_by t b (x0 d : Z) s i (w : Z) :
  img (this s) = Some i ->
  width (elements (doc s) i) = Int w ->
  w <> 0 ->
  - 2147483648 <= x0 <= 2147483647 ->
  - 2147483648 <= x0 + d <= 2147483647 ->
  0 <= w + d <= 2147483647 ->
  Some b <> boxes (this s) !! 0%nat ->
  Some b <> boxes (this s) !! 3%nat ->
  let s1 := snd (handleMousedown
                   {| target := Some b; clientX := Fin (inject_Z x0) |} s) in
  let s2 := snd (handleDrag layout
                   {| target := t; clientX := Fin (inject_Z (x0 + d)) |} s1) in
  width (elements (doc s2) i) = Int (w + d).
Proof.
  intros Hi Hw Hw0 _ _ Hwd H0 H3 s1 s2.
  destruct (handleMousedown_run
              {| target := Some b; clientX := Fin (inject_Z x0) |} s i b Hi eq_refl)
    as (s1' & Hr & Ht & _).
  assert (s1 = s1') as -> by (subst s1; by rewrite Hr). clear Hr.
  rewrite Hw in Ht. cbn [truthy of_rounded clientX] in Ht.
  destruct (Z.eqb_spec w 0) as [|_]; [done|]. cbn [negb] in Ht.
  subst s2.
  apply (handleDrag_right_handle _ s1' i (Fin (inject_Z w)) (Fin (inject_Z x0)));
    try (rewrite Ht; done); [|done].
  cbn [clientX]. rewrite <- (Math_round_inject (w + d)).
  apply Math_round_proper.
  replace (w + d) with (w + (x0 + d) - x0) by lia.
  apply sub_int; [apply add_int|]; apply num_eq_refl_int.
Qed.

(** ** Where the handles go *)

Lemma update_pageXOffset n f d : pageXOffset (update n f d) = pageXOffset d.
Proof. reflexivity. Qed.

Lemma update_pageYOffset n f d : pageYOffset (update n f d) = pageYOffset d.
Proof. reflexivity. Qed.

(** One handle after the other, up to the first that is missing. *)
Ltac position_boxes Hb :=
  repeat (run; cbn [this with_doc];
          rewrite ?doc_with_doc, ?update_pageXOffset, ?update_pageYOffset, Hb;
          cbn [lookup list_lookup]);
  run.

(** X10: with four distinct handles, [positionBoxes] returns normally and
    centres them on the corners of the rectangle, in the order top left,
    top right, bottom right, bottom left: each handle gets as [left] and
    [top] the rounded page coordinates of its corner minus 6 pixels, half
    the size of a handle.  Nothing but styles changes. *)
Theorem positionBoxes_corners rect s b0 b1 b2 b3 :
  boxes (this s) = [b0; b1; b2; b3] ->
  NoDup [b0; b1; b2; b3] ->
  let X := pageXOffset (doc s) in
  let Y := pageYOffset (doc s) in
  let left := sub (rect_left rect) (Fin 6) in
  let right := sub (add (rect_left rect) (rect_width rect)) (Fin 6) in
  let top := sub (rect_top rect) (Fin 6) in
  let bottom := sub (add (rect_top rect) (rect_height rect)) (Fin 6) in
  exists s',
    positionBoxes rect s = (Ok tt, s')
    /\ structure s' = structure s
    /\ Forall2 (fun b (pos : num * num) =>
         style (elements (doc s') b) !! "left" = Some (px (add pos.1 X))
         /\ style (elements (doc s') b) !! "top" = Some (px (add pos.2 Y)))
       [b0; b1; b2; b3]
       [(left, top); (right, top); (right, bottom); (left, bottom)].
Proof.
  intros Hb Hnd X Y left right top bottom.
  apply NoDup_cons in Hnd as [H0 Hnd]. apply NoDup_cons in Hnd as [H1 Hnd].
  apply NoDup_cons in Hnd as [H2 _].
  rewrite !not_elem_of_cons in H0. rewrite !not_elem_of_cons in H1.
  rewrite !not_elem_of_cons in H2.
  destruct H0 as (H01 & H02 & H03 & _), H1 as (H12 & H13 & _), H2 as (H23 & _).
  unfold positionBoxes, extend, setStyle. position_boxes Hb.
  eexists. split; [reflexivity|]. split; [reflexivity|].
  fold X Y left right top bottom.
  repeat (apply List.Forall2_cons; [split|]); [..|apply List.Forall2_nil];
    cbn [fst snd];
    repeat first
      [ rewrite doc_with_doc
      | rewrite elements_update_eq
      | rewrite elements_update_ne by congruence ];
    cbn [style set_style];
    repeat first
      [ rewrite lookup_insert_eq
      | rewrite lookup_insert_ne by done ];
    reflexivity.
Qed.

(** X11: with fewer than four handles [positionBoxes] raises a
    [TypeError] when it gets to the first missing one; nothing but styles
    has changed by then. *)
Theorem positionBoxes_too_few rect s :
  (List.length (boxes (this s)) < 4)%nat ->
  exists s',
    positionBoxes rect s = (Throw TypeError, s')
    /\ structure s' = structure s.
Proof.
  intros Hlen. unfold positionBoxes, extend, setStyle.
  destruct (boxes (this s)) as [|b0 [|b1 [|b2 [|b3 bs]]]] eqn:Hb;
    cbn in Hlen; try lia; clear Hlen;
    position_boxes Hb; eexists; split; reflexivity.
Qed.

(** ** The styles of the overlays *)

Lemma bind_setStyle {B} n p v (k : unit -> M B) s :
  (setStyle n p v ≫= k) s
  = k tt (with_doc (update n (fun e => set_style (<[p := v]> (style e)) e)) s).
Proof. reflexivity. Qed.

Lemma assign_run n (kvs : list (string * string)) s :
  exists s',
    forEach (fun kv => setStyle n (fst kv) (snd kv)) kvs s = (Ok tt, s')
    /\ structure s' = structure s
    /\ style (elements (doc s') n)
       = foldl (fun m kv => <[fst kv := snd kv]> m) (style (elements (doc s) n)) kvs
    /\ (forall m, m <> n -> elements (doc s') m = elements (doc s) m).
Proof.
  revert s. induction kvs as [|[k v] kvs IH]; intros s.
  - by exists s.
  - cbn [forEach]. cbv beta. rewrite bind_setStyle. cbn [fst snd].
    destruct (IH (with_doc (update n (fun e =>
                set_style (<[k := v]> (style e)) e)) s))
      as (s' & Hr & Hs & Hst & Hot).
    exists s'. split; [exact Hr|]. split; [by rewrite Hs|]. split.
    + by rewrite Hst, doc_with_doc, elements_update_eq.
    + intros m Hm. rewrite (Hot m Hm), doc_with_doc.
      apply elements_update_ne. congruence.
Qed.

(** [extend] assigns every property of every source, in order, and touches
    nothing but the style of its destination. *)
Lemma extend_run n srcs s :
  exists s',
    extend n srcs s = (Ok tt, s')
    /\ structure s' = structure s
    /\ style (elements (doc s') n)
       = foldl (fun m kv => <[fst kv := snd kv]> m) (style (elements (doc s) n))
           (concat srcs)
    /\ (forall m, m <> n -> elements (doc s') m = elements (doc s) m).
Proof.
  unfold extend. revert s. induction srcs as [|src srcs IH]; intros s.
  - by exists s.
  - cbn [forEach].
    destruct (assign_run n src s) as (s1 & Hr1 & Hs1 & Hst1 & Hot1).
    rewrite (bind_Ok _ _ _ _ _ Hr1).
    destruct (IH s1) as (s' & Hr & Hs & Hst & Hot).
    exists s'. split; [exact Hr|]. split; [congruence|]. split.
    + by rewrite Hst, Hst1, <- foldl_app.
    + intros m Hm. by rewrite (Hot m Hm), (Hot1 m Hm).
Qed.

(** A new handle leaves every other element as it is. *)
Lemma addBox_others c s n :
  n <> Created (created (doc s)) ->
  elements (doc (snd (addBox c s))) n = elements (doc s) n.
Proof.
  intros Hne. unfold addBox. rewrite bind_createElement. run.
  match goal with
  | |- context [(extend ?b ?srcs ≫= ?k) ?s1] =>
      destruct (extend_run b srcs s1) as (s2 & Hr & _ & _ & Hot);
      rewrite (bind_Ok _ _ _ _ _ Hr)
  end.
  specialize (Hot n Hne).
  cbn [doc with_doc elements set_created set_elements] in Hot.
  rewrite fn_lookup_insert_ne in Hot by congruence.
  unfold addEventListener, appendChild. run. unfold modify.
  cbn [snd doc with_doc with_this elements set_childNodes].
  destruct (decide _); cbn [elements set_listeners]; by rewrite Hot.
Qed.

(** A new handle when the options name no styles. *)
Lemma addBox_plain c s :
  handleStyles (options (this s)) = None ->
  handle_style c
    (elements (doc (snd (addBox c s))) (Created (created (doc s)))).
Proof.
  intros Hs. unfold addBox. rewrite bind_createElement. run.
  cbn [this with_doc]. rewrite Hs. cbn [default].
  match goal with
  | |- context [(extend ?b ?srcs ≫= ?k) ?s1] =>
      destruct (extend_run b srcs s1) as (s2 & Hr & _ & Hst & _);
      rewrite (bind_Ok _ _ _ _ _ Hr)
  end.
  cbn [doc with_this with_doc elements set_created set_elements] in Hst.
  rewrite fn_lookup_insert in Hst.
  cbn [style blank concat app foldl fst snd] in Hst.
  unfold addEventListener, appendChild. run. unfold modify.
  cbn [snd doc with_doc with_this elements set_childNodes].
  assert (handle_style c (elements (doc s2) (Created (created (doc s))))) as Hh.
  { unfold handle_style. rewrite Hst.
    repeat split;
      repeat first
        [ rewrite lookup_insert_eq
        | rewrite lookup_insert_ne by done ];
      reflexivity. }
  destruct (decide _); exact Hh.
Qed.

(** X12: when the options name no handle styles, the four handles that
    [showResizers] makes are squares of 12 pixels, positioned absolutely,
    and show, in the order of their making (top left, top right, bottom
    right, bottom left), the cursors [nwse-resize], [nesw-resize],
    [nwse-resize] and [nesw-resize]: each corner has the cursor of its
    diagonal. *)
Theorem handle_cursors s :
  fresh_ids (doc s) ->
  handleStyles (options (this s)) = None ->
  let k := created (doc s) in
  exists s',
    showResizers s = (Ok tt, s')
    /\ boxes (this s')
       = boxes (this s)
         ++ [Created k; Created (S k); Created (S (S k)); Created (S (S (S k)))]
    /\ Forall2 (fun b c => handle_style c (elements (doc s') b))
         [Created k; Created (S k); Created (S (S k)); Created (S (S (S k)))]
         ["nwse-resize"; "nesw-resize"; "nwse-resize"; "nesw-resize"].
Proof.
  intros Hf Hs k. unfold showResizers.
  destruct (styles_only_setUserSelect (fun _ => True) "none" s I)
    as (s0 & Hr0 & (Ht0 & Hc0 & Hk0)%structure_eq).
  ran Hr0.
  assert (fresh_ids (doc s0)) as Hf0.
  { intros j. rewrite Hc0, Hk0. apply Hf. }
  assert (forall c s1 k1,
            fresh_ids (doc s1) -> created (doc s1) = k1 ->
            options (this s1) = options (this s) ->
            exists s2,
              addBox c s1 = (Ok tt, s2)
              /\ fresh_ids (doc s2) /\ created (doc s2) = S k1
              /\ options (this s2) = options (this s)
              /\ boxes (this s2) = boxes (this s1) ++ [Created k1]
              /\ handle_style c (elements (doc s2) (Created k1))
              /\ forall n, n <> Created k1 ->
                    elements (doc s2) n = elements (doc s1) n) as Hbox.
  { intros c s1 k1 Hf1 <- Ho1.
    destruct (addBox_spec c s1 Hf1)
      as (s2 & Hr & (Ht & _ & Hk)%structure_is & Hf2).
    pose proof (addBox_plain c s1) as Hp.
    pose proof (addBox_others c s1) as Hot.
    rewrite Hr in Hp, Hot. cbn [snd] in Hp, Hot.
    exists s2. split; [exact Hr|]. split; [exact Hf2|]. split; [exact Hk|].
    rewrite Ht. cbn [options boxes set_boxes].
    split; [exact Ho1|]. split; [done|]. split; [|exact Hot].
    apply Hp. by rewrite Ho1. }
  destruct (Hbox "nwse-resize" s0 k Hf0 Hk0 (f_equal options Ht0))
    as (s1 & Hr1 & Hf1 & Hk1 & Ho1 & Hb1 & Hs1 & Hot1).
  ran Hr1.
  destruct (Hbox "nesw-resize" s1 (S k) Hf1 Hk1 Ho1)
    as (s2 & Hr2 & Hf2 & Hk2 & Ho2 & Hb2 & Hs2 & Hot2).
  ran Hr2.
  destruct (Hbox "nwse-resize" s2 (S (S k)) Hf2 Hk2 Ho2)
    as (s3 & Hr3 & Hf3 & Hk3 & Ho3 & Hb3 & Hs3 & Hot3).
  ran Hr3.
  destruct (Hbox "nesw-resize" s3 (S (S (S k))) Hf3 Hk3 Ho3)
    as (s4 & Hr4 & Hf4 & Hk4 & Ho4 & Hb4 & Hs4 & Hot4).
  ran Hr4.
  unfold addEventListener. run. eexists. split; [reflexivity|].
  assert (forall n, elements (doc (with_doc (fun d =>
              if decide (input_listener ∈ listeners d) then d
              else set_listeners (listeners d ++ [input_listener]) d)
            (with_doc (fun d =>
              if decide (keyup_listener ∈ listeners d) then d
              else set_listeners (listeners d ++ [keyup_listener]) d) s4))) n
          = elements (doc s4) n) as Hel.
  { intros n. cbn [doc with_doc]. by repeat destruct (decide _). }
  fold keyup_listener input_listener.
  split.
  - cbn [this with_doc]. rewrite Hb4, Hb3, Hb2, Hb1, Ht0.
    by rewrite <- !app_assoc.
  - repeat (apply List.Forall2_cons; [|]); [..|apply List.Forall2_nil];
      rewrite Hel.
    + rewrite Hot4, Hot3, Hot2 by (intros [=]; lia). exact Hs1.
    + rewrite Hot4, Hot3 by (intros [=]; lia). exact Hs2.
    + rewrite Hot4 by (intros [=]; lia). exact Hs3.
    + exact Hs4.
Qed.

(** ** The size shown *)

(** X13: an image shown at [k] times its natural width is labelled with
    that width and [k] times its natural height; at its natural width, with
    its natural size. *)
Theorem getCurrentSize_scaled s i (k : Z) :
  img (this s) = Some i ->
  let e := elements (doc s) i in
  naturalWidth e <> 0%N ->
  width e = Int (k * Z.of_N (naturalWidth e)) ->
  getCurrentSize s
  = (Ok (width e, Int (k * Z.of_N (naturalHeight e))), s).
Proof.
  intros Hi e Hnw Hw. unfold getCurrentSize. run. rewrite Hi. run.
  fold e. rewrite Hw. unfold mret, M_ret. do 3 f_equal.
  rewrite <- (Math_round_inject (k * Z.of_N (naturalHeight e))).
  apply Math_round_proper.
  destruct (naturalWidth e) as [|p]; [done|].
  assert (Qeq_bool (inject_Z (Z.pos p)) 0 = false) as Hp by reflexivity.
  unfold of_N, of_rounded. cbn [div mul Z.of_N]. rewrite Hp.
  cbn [mul num_eq]. apply binary64_int.
  rewrite inject_Z_mult.
  rewrite (binary64_int (inject_Z (k * Z.pos p) / inject_Z (Z.pos p)) k);
    [reflexivity|].
  rewrite inject_Z_mult. field. done.
Qed.

(** ** Selections, one after the other *)

Lemma filter_not_created l :
  filter is_created l = [] -> filter (fun n => ~ is_created n) l = l.
Proof.
  intros Hl. apply filter_all. intros x Hx Hc.
  assert (x ∈ filter is_created l) as Hin by (by apply list_elem_of_filter).
  rewrite Hl in Hin. by apply elem_of_nil in Hin.
Qed.

Lemma consistent_idle s :
  consistent s -> img (this s) = None ->
  filter (fun n => ~ is_created n) (childNodes (doc s)) = childNodes (doc s).
Proof.
  intros [_ Ho _ Hs] Hi. apply filter_not_created. rewrite Ho.
  rewrite Hi in Hs. destruct Hs as [Hb Hd]. unfold overlays. by rewrite Hb, Hd.
Qed.

(** X14: with the size display enabled and consistent overlays, a click
    always runs to its end and keeps the overlays consistent.  Afterwards
    the clicked image is the selected one, or none after a click that is
    not on an image.  When that is the selection there was, nothing at all
    has changed; otherwise every overlay of the old selection has left the
    document, the rest of the document is as before, and the overlays of
    the new selection, if there is one, come after it. *)
Theorem click_with_size_display evt s :
  consistent s ->
  displaySize (options (this s)) = true ->
  exists s',
    handleClick layout evt s = (Ok tt, s')
    /\ consistent s'
    /\ img (this s') = (if is_IMG (target evt) then target evt else None)
    /\ (img (this s') = img (this s) -> s' = s)
    /\ (img (this s') <> img (this s) ->
        childNodes (doc s')
        = filter (fun n => ~ is_created n) (childNodes (doc s))
          ++ overlays (this s')).
Proof.
  intros Hcons Hds. unfold handleClick. rewrite bind_gets.
  destruct (is_IMG (target evt)) eqn:Himg.
  - destruct (is_IMG_target _ Himg) as [t Ht]. rewrite Ht. cbn [deref].
    destruct (decide (img (this s) = Some t)) as [Hsel|Hsel].
    { exists s. rewrite Hsel.
      split; [done|]. split; [exact Hcons|]. split; [done|]. by split. }
    destruct (img (this s)) as [i|] eqn:Hi.
    + rewrite decide_True by done.
      destruct (hide_consistent s i Hcons Hi) as (s1 & Hr1 & Hc1 & Ht1 & Hch1).
      ran Hr1. run.
      destruct (show_consistent s1 t Hc1) as (s2 & Hr2 & Hc2 & Ht2 & Hch2);
        [by rewrite Ht1..|].
      exists s2. split; [exact Hr2|]. split; [done|].
      rewrite Ht2 at 1 2 3. cbn [img].
      split; [done|]. split; [congruence|]. intros _. by rewrite Hch2, Hch1.
    + rewrite decide_False by (intros H; by apply H). run.
      destruct (show_consistent s t Hcons Hds Hi) as (s2 & Hr2 & Hc2 & Ht2 & Hch2).
      exists s2. split; [exact Hr2|]. split; [done|].
      rewrite Ht2 at 1 2 3. cbn [img].
      split; [done|]. split; [congruence|]. intros _.
      by rewrite Hch2, (consistent_idle s Hcons Hi).
  - destruct (img (this s)) as [i|] eqn:Hi.
    + rewrite decide_True by done.
      destruct (hide_consistent s i Hcons Hi) as (s1 & Hr1 & Hc1 & Ht1 & Hch1).
      exists s1. split; [exact Hr1|]. split; [done|].
      rewrite Ht1. cbn [img overlays boxes display option_list app].
      split; [done|]. split; [congruence|]. intros _.
      by rewrite Hch1, app_nil_r.
    + rewrite decide_False by (intros H; by apply H).
      exists s. split; [done|]. split; [exact Hcons|].
      split; [exact Hi|]. split; [done|]. by rewrite Hi.
Qed.

(** X15: when the size display is enabled and the page has no element of
    the module's making at the start, the overlays are consistent after
    every sequence of events: the overlay elements in the document are
    the handles and the size display that the instance holds, each once,
    four handles and a display while an image is selected and none
    otherwise.  No handle is ever left behind or put in twice. *)
Theorem overlays_stay_consistent opts d evs :
  displaySize opts = true ->
  fresh_ids d ->
  filter is_created (childNodes d) = [] ->
  consistent (handle_all layout evs (constructor opts d)).
Proof.
  intros Hds Hf Hc. apply handle_all_consistent.
  - by apply constructor_consistent.
  - exact Hds.
Qed.

(** X17: with the size display enabled, selecting an image from the idle
    state and deselecting it again by a click elsewhere both run to their
    end and leave the children of the body as they were before the
    selection, and the instance without image, handles, size display and
    drag session. *)
Theorem select_then_deselect evt evt' s :
  consistent s ->
  displaySize (options (this s)) = true ->
  img (this s) = None ->
  is_IMG (target evt) = true ->
  is_IMG (target evt') = false ->
  exists s1 s2,
    handleClick layout evt s = (Ok tt, s1)
    /\ img (this s1) = target evt
    /\ handleClick layout evt' s1 = (Ok tt, s2)
    /\ this s2
       = {| options := options (this s); img := None; boxes := [];
            dragBox := None; dragStartX := None; preDragWidth := None;
            display := None |}
    /\ childNodes (doc s2) = childNodes (doc s).
Proof.
  intros Hcons Hds Hi Himg Himg'.
  destruct (is_IMG_target _ Himg) as [t Ht].
  destruct (show_consistent s t Hcons Hds Hi) as (s1 & Hr1 & Hc1 & Ht1 & Hch1).
  assert (img (this s1) = Some t) as Hi1 by (by rewrite Ht1).
  destruct (hide_consistent s1 t Hc1 Hi1) as (s2 & Hr2 & Hc2 & Ht2 & Hch2).
  exists s1, s2. split; [|split; [congruence|split; [|split]]].
  - unfold handleClick. rewrite bind_gets, Himg, Hi, Ht.
    rewrite decide_False by done.
    rewrite decide_False by (intros H; by apply H). run. exact Hr1.
  - unfold handleClick. rewrite bind_gets, Himg', Hi1.
    by rewrite decide_True.
  - rewrite Ht2, Ht1. reflexivity.
  - rewrite Hch2, Hch1, filter_app, (consistent_idle s Hcons Hi).
    rewrite Ht1. cbn. apply app_nil_r.
Qed.

(** X18: without the [displaySize] option, [show] from a state without
    handles runs to its end as well: it makes four handles, the last
    children of the body and in [boxes] in the order of their making, and
    no size display. *)
Theorem show_without_size_display i s :
  fresh_ids (doc s) ->
  displaySize (options (this s)) = false ->
  boxes (this s) = [] ->
  let k := created (doc s) in
  exists s',
    show layout i s = (Ok tt, s')
    /\ structure s'
       = ({| options := options (this s); img := Some i;
             boxes := [Created k; Created (S k); Created (S (S k));
                       Created (S (S (S k)))];
             dragBox := dragBox (this s); dragStartX := dragStartX (this s);
             preDragWidth := preDragWidth (this s);
             display := display (this s) |},
          childNodes (doc s)
          ++ [Created k; Created (S k); Created (S (S k));
              Created (S (S (S k)))],
          S (S (S (S k))))
    /\ fresh_ids (doc s').
Proof.
  intros Hf Hds Hb k. unfold show. rewrite bind_modify.
  set (s0 := with_this (set_img (Some i)) s).
  destruct (showResizers_spec s0 Hf)
    as (s1 & Hr1 & (Ht1 & Hc1 & Hk1)%structure_is & Hf1 & _).
  ran Hr1.
  cbn [structure fst snd] in *.
  assert (this s1
          = {| options := options (this s); img := Some i;
               boxes := [Created k; Created (S k); Created (S (S k));
                         Created (S (S (S k)))];
               dragBox := dragBox (this s); dragStartX := dragStartX (this s);
               preDragWidth := preDragWidth (this s);
               display := display (this s) |}) as Ht.
  { rewrite Ht1. subst s0. cbn. by rewrite Hb. }
  unfold showSizeDisplay. run. rewrite Ht. cbn [options img]. rewrite Hds.
  cbn [negb]. run. rewrite Ht. cbn [img]. run.
  unfold boundingClientRect. run.
  destruct (styles_only_positionBoxes
              (layout (doc s1) i) s1) as (s3 & Hr3 & Hs3).
  { cbn. rewrite Ht. cbn. lia. }
  ran Hr3.
  destruct (styles_only_positionSizeDisplay
              (layout (doc s1) i) s3 I) as (s4 & Hr4 & Hs4).
  exists s4. split; [exact Hr4|].
  apply structure_eq in Hs3 as (Ht3 & Hc3 & Hk3).
  apply structure_eq in Hs4 as (Ht4 & Hc4 & Hk4).
  split.
  - unfold structure. rewrite Ht4, Ht3, Ht, Hc4, Hc3, Hc1, Hk4, Hk3, Hk1.
    subst s0. reflexivity.
  - intros j. rewrite Hc4, Hc3, Hk4, Hk3. apply Hf1.
Qed.

(** ** A drag that outlives its selection *)

#[local] Instance drag_listeners_preorder : PreOrder drag_listeners_stay.
Proof.
  split.
  - by intros s l.
  - intros s1 s2 s3 H12 H23 l Hl Hin. auto.
Qed.

Lemma same_listeners_drag f :
  (forall s, listeners (doc (f s)) = listeners (doc s)) ->
  keeps drag_listeners_stay (modify f).
Proof. intros Hf s l _ Hl. cbn. by rewrite Hf. Qed.

Lemma removeEventListener_drag t ty :
  keeps drag_listeners_stay (removeEventListener t ty CheckImage).
Proof.
  intros s l Hl Hin. cbn. apply list_elem_of_filter. split; [|done].
  destruct Hl as [-> | ->]; discriminate.
Qed.

Lemma removeChild_drag n : keeps drag_listeners_stay (removeChild n).
Proof.
  destruct n as [c|]; [|by intros s l]. intros s l _ Hl.
  unfold removeChild. by destruct (decide _).
Qed.

Lemma setStyle_drag n p v : keeps drag_listeners_stay (setStyle n p v).
Proof. by apply same_listeners_drag. Qed.

#[local] Hint Resolve removeEventListener_drag removeChild_drag
  setStyle_drag : frames.
#[local] Hint Extern 1 (keeps drag_listeners_stay (modify _)) =>
  apply same_listeners_drag; reflexivity : frames.

(** A deselection removes no listener of a drag. *)
Lemma hide_drag : keeps drag_listeners_stay hide.
Proof.
  unfold hide, hideResizers, hideSizeDisplay, setUserSelect, setCursor. frame.
Qed.

(** X21: a handle is pressed and, before the button is released, a key
    is pressed (or the editor content changes).  With the size display
    enabled the deselection runs to its end, and the mouseup that follows
    raises a [TypeError] in [setCursor], which finds no image, before
    [handleMouseup] gets to remove the listeners of the drag: both stay
    registered on the document. *)
Theorem drag_outlives_selection evt s i b :
  consistent s ->
  img (this s) = Some i ->
  target evt = Some b ->
  let s1 := snd (handleMousedown evt s) in
  let r2 := checkImage s1 in
  let r3 := handleMouseup (snd r2) in
  fst r2 = Ok tt
  /\ img (this (snd r2)) = None
  /\ fst r3 = Throw TypeError
  /\ mousemove_listener ∈ listeners (doc (snd r3))
  /\ mouseup_listener ∈ listeners (doc (snd r3)).
Proof.
  intros Hcons Hi Hb s1 r2 r3.
  destruct (handleMousedown_run evt s i b Hi Hb)
    as (s1' & Hr1 & Ht1 & _ & _ & Hmm & Hmu & _).
  assert (s1 = s1') as Hs1 by (subst s1; by rewrite Hr1).
  assert (consistent s1') as Hc1.
  { rewrite <- Hs1. subst s1.
    exact (consistent_same_overlays _ _ (handleMousedown_overlays evt s) Hcons). }
  assert (img (this s1') = Some i) as Hi1 by (by rewrite Ht1).
  destruct (hide_consistent s1' i Hc1 Hi1) as (s2 & Hr2 & _ & Ht2 & _).
  assert (r2 = (Ok tt, s2)) as Hr2'.
  { subst r2. rewrite Hs1. unfold checkImage. rewrite bind_gets, Hi1.
    by rewrite decide_True. }
  pose proof (hide_drag s1') as Hstay. rewrite Hr2 in Hstay. cbn [snd] in Hstay.
  assert (img (this s2) = None) as Hi2 by (by rewrite Ht2).
  subst r3. rewrite Hr2'. cbn [fst snd].
  split; [done|]. split; [done|].
  unfold handleMouseup, setCursor. run. rewrite Hi2. run.
  cbn [fst snd doc with_doc update set_elements listeners].
  split; [done|]. split; apply Hstay; auto.
Qed.

(** ** Text selection *)

#[local] Instance user_select_preorder : PreOrder user_select_stays.
Proof.
  split.
  - by intros s prop n.
  - intros s1 s2 s3 H12 H23 prop n Hp Hn. by rewrite H23, H12.
Qed.

Lemma same_elements_user_select f :
  (forall s, elements (doc (f s)) = elements (doc s)) ->
  keeps user_select_stays (modify f).
Proof. intros Hf s prop n _ _. cbn. by rewrite Hf. Qed.

Lemma addEventListener_user_select t ty h c :
  keeps user_select_stays (addEventListener t ty h c).
Proof.
  apply same_elements_user_select. intros s. cbn. by destruct (decide _).
Qed.

Lemma removeEventListener_user_select t ty h :
  keeps user_select_stays (removeEventListener t ty h).
Proof. by apply same_elements_user_select. Qed.

Lemma removeChild_user_select n : keeps user_select_stays (removeChild n).
Proof.
  destruct n as [c|]; [|by intros s prop n]. intros s prop n _ _.
  unfold removeChild. by destruct (decide _).
Qed.

(** The cursor is not one of the properties. *)
Lemma setStyle_cursor_user_select n v :
  keeps user_select_stays (setStyle n "cursor" v).
Proof.
  intros s prop m Hp _. cbn [snd setStyle modify]. rewrite doc_with_doc.
  rewrite elements_update. case_decide; [|done]. cbn [style set_style].
  rewrite lookup_insert_ne; [done|]. intros <-.
  unfold user_select_properties in Hp.
  rewrite !elem_of_cons, elem_of_nil in Hp. intuition discriminate.
Qed.

(** A new handle is neither of the two elements. *)
Lemma addBox_user_select c : keeps user_select_stays (addBox c).
Proof.
  intros s prop n Hp Hn. unfold addBox. rewrite bind_createElement. run.
  match goal with
  | |- context [(extend ?b ?srcs ≫= ?k) ?s1] =>
      destruct (extend_run b srcs s1) as (s2 & Hr & _ & _ & Hot);
      rewrite (bind_Ok _ _ _ _ _ Hr)
  end.
  assert (n <> Created (created (doc s))) as Hne.
  { rewrite !elem_of_cons, elem_of_nil in Hn. intros ->.
    intuition discriminate. }
  specialize (Hot n Hne).
  cbn [doc with_doc elements set_created set_elements] in Hot.
  rewrite fn_lookup_insert_ne in Hot by congruence.
  unfold addEventListener, appendChild. run. unfold modify.
  cbn [snd doc with_doc with_this elements set_childNodes].
  destruct (decide _); cbn [elements set_listeners]; by rewrite Hot.
Qed.

#[local] Hint Resolve addEventListener_user_select
  removeEventListener_user_select removeChild_user_select
  setStyle_cursor_user_select addBox_user_select : frames.
#[local] Hint Extern 1 (keeps user_select_stays (modify (with_this _))) =>
  apply same_elements_user_select; reflexivity : frames.

Lemma setUserSelect_run v s :
  exists s', setUserSelect v s = (Ok tt, s') /\ user_select v s'.
Proof.
  unfold setUserSelect. cbn [forEach]. cbv beta.
  repeat (rewrite ?bind_assoc; rewrite bind_setStyle).
  eexists. split; [reflexivity|].
  intros prop n Hp Hn. unfold user_select_properties in Hp.
  rewrite !elem_of_cons, elem_of_nil in Hp.
  rewrite !elem_of_cons, elem_of_nil in Hn.
  destruct Hn as [->|[->|[]]];
    destruct Hp as [->|[->|[->|[->|[]]]]];
    repeat first
      [ rewrite doc_with_doc
      | rewrite elements_update_eq
      | rewrite elements_update_ne by discriminate ];
    cbn [style set_style];
    repeat first
      [ rewrite lookup_insert_eq
      | rewrite lookup_insert_ne by done ];
    reflexivity.
Qed.

(** X22: while an image is selected the text of the page cannot be
    selected, and afterwards it can again.  Whatever the state,
    [showResizers] leaves the four user-select properties of the editor
    root and of the document element at ['none'], and [hide] leaves them
    at [''], also when it raises further on. *)
Theorem text_selection_toggles s :
  user_select "none" (snd (showResizers s)) /\ user_select "" (snd (hide s)).
Proof.
  assert (forall v s0 (k : M unit), keeps user_select_stays k ->
            user_select v (snd ((setUserSelect v ≫= fun _ => k) s0))) as Hthen.
  { intros v s0 k Hk. destruct (setUserSelect_run v s0) as (s1 & Hr & Hv).
    rewrite (bind_Ok _ _ _ _ _ Hr). intros prop n Hp Hn.
    rewrite (Hk s1 prop n Hp Hn). by apply Hv. }
  split.
  - unfold showResizers. apply Hthen. frame.
  - unfold hide, hideResizers, removeEventListener. run.
    apply Hthen. unfold hideSizeDisplay, setCursor. frame.
Qed.

End WithLayout.

(** ** Runs on the concrete page *)

Lemma selected_state :
  this (selected true)
  = {| options := with_displaySize true; img := Some imgA;
       boxes := [Created 0; Created 1; Created 2; Created 3];
       dragBox := None; dragStartX := None; preDragWidth := None;
       display := Some (Created 4) |}
  /\ childNodes (doc (selected true))
     = [Root; Created 0; Created 1; Created 2; Created 3; Created 4].
Proof. split; reflexivity. Qed.

Lemma dragging_state :
  this (dragging true)
  = {| options := with_displaySize true; img := Some imgA;
       boxes := [Created 0; Created 1; Created 2; Created 3];
       dragBox := Some (Created 0); dragStartX := Some (Fin 100);
       preDragWidth := Some (Fin 200); display := Some (Created 4) |}
  /\ mousemove_listener ∈ listeners (doc (dragging true))
  /\ mouseup_listener ∈ listeners (doc (dragging true)).
Proof.
  split; [reflexivity|].
  split; apply (bool_decide_unpack _); vm_compute; exact I.
Qed.

(** C1: the top left handle is pressed at [x = 100] on an image 200 pixels
    wide and the pointer moves 20 pixels to the left.  The claim gives
    [round(200 - (80 - 100)) = 220]; [handleDrag] computes
    [round(200 - 80 - 100) = 20]. *)
Theorem drag_left_handle_to_the_left :
  let s := snd (handleDrag flat_layout (mouse_at Document 80) (dragging true)) in
  dragBox (this (dragging true)) = boxes (this (dragging true)) !! 0%nat
  /\ width (elements (doc s) imgA) = Int 20
  /\ Math_round (sub (Fin 200) (sub (Fin 80) (Fin 100))) = Int 220.
Proof. repeat split; reflexivity. Qed.

(** The other half of C1 holds: the top right handle, pressed at [x = 100]
    and moved 20 pixels to the right, makes the image 20 pixels wider. *)
Lemma drag_right_handle_to_the_right :
  let s := snd (handleMousedown (mouse_at (Created 1) 100) (selected true)) in
  let s' := snd (handleDrag flat_layout (mouse_at Document 120) s) in
  dragBox (this s) = boxes (this s) !! 1%nat
  /\ width (elements (doc (selected true)) imgA) = Int 200
  /\ width (elements (doc s') imgA) = Int 220.
Proof. repeat split; reflexivity. Qed.

(** C3: without the [displaySize] option no trigger of a deselection gets
    through [hide]: [hideSizeDisplay] hands [undefined] to [removeChild],
    and the image stays selected. *)
Theorem deselect_without_size_display :
  display (this (selected false)) = None
  /\ Forall (fun trigger : M unit =>
               fst (trigger (selected false)) = Throw TypeError
               /\ img (this (snd (trigger (selected false)))) = Some imgA)
       [ handleClick flat_layout (click Root);    (* a click outside *)
         checkImage;                              (* keyup *)
         checkImage ].                            (* input *)
Proof. split; [reflexivity|]. repeat constructor. Qed.

(** C4: after a deselection that runs to its end, the two listeners that
    [showResizers] registered for the capture phase are still registered:
    [hideResizers] removes them without the capture flag. *)
Theorem watchers_survive_deselection :
  let r := handleClick flat_layout (click Root) (selected true) in
  fst r = Ok tt
  /\ img (this (snd r)) = None
  /\ filter (fun l => on_callback l = CheckImage) (listeners (doc (snd r)))
     = [keyup_listener; input_listener].
Proof. repeat split; reflexivity. Qed.

(** C7, as stated, fails: after a mouseup the three fields of the drag
    session still hold the values of the mousedown. *)
Lemma mouseup_keeps_drag_session :
  let r := handleMouseup (dragging true) in
  fst r = Ok tt
  /\ dragBox (this (snd r)) = Some (Created 0)
  /\ dragStartX (this (snd r)) = Some (Fin 100)
  /\ preDragWidth (this (snd r)) = Some (Fin 200)
  /\ ~ (dragBox (this (snd r)) = None /\ dragStartX (this (snd r)) = None
        /\ preDragWidth (this (snd r)) = None).
Proof.
  split; [reflexivity|]. split; [reflexivity|]. split; [reflexivity|].
  split; [reflexivity|]. intros [H _]. vm_compute in H. discriminate H.
Qed.

(** C8: without the [displaySize] option a click on a second image ends in
    [hide]: the handles of the first image are gone, none are made for the
    second, and the first image stays the selected one; every later click
    on the second image ends the same way. *)
Theorem second_image_without_size_display :
  let r := handleClick flat_layout (click imgB) (selected false) in
  let r' := handleClick flat_layout (click imgB) (snd r) in
  boxes (this (selected false)) = [Created 0; Created 1; Created 2; Created 3]
  /\ fst r = Throw TypeError
  /\ img (this (snd r)) = Some imgA
  /\ boxes (this (snd r)) = []
  /\ childNodes (doc (snd r)) = [Root]
  /\ fst r' = Throw TypeError
  /\ this (snd r') = this (snd r)
  /\ childNodes (doc (snd r')) = [Root].
Proof. repeat split; reflexivity. Qed.

(** With the option, the same click moves the overlays to the second
    image. *)
Lemma second_image_with_size_display :
  let r := handleClick flat_layout (click imgB) (selected true) in
  fst r = Ok tt
  /\ img (this (snd r)) = Some imgB
  /\ boxes (this (snd r)) = [Created 5; Created 6; Created 7; Created 8]
  /\ display (this (snd r)) = Some (Created 9)
  /\ childNodes (doc (snd r))
     = [Root; Created 5; Created 6; Created 7; Created 8; Created 9].
Proof. repeat split; reflexivity. Qed.

(** C9, as stated, fails: an image 122 pixels wide that is 184 by 46
    pixels by nature is 30.5 pixels high at that width, which rounds to 31;
    its width being over 120 and that height over 30, the claim has the
    label inside the image.  [getCurrentSize] divides first: the quotient
    [122 / 184] is no double, the product of the nearest double with 46
    falls short of 30.5, and the label reads 30 and is placed outside. *)
Theorem banner_height_rounds_down :
  let e := elements (doc banner_selected) imgA in
  width e = Int 122 /\ naturalWidth e = 184%N /\ naturalHeight e = 46%N
  /\ Math_round (Fin (122 * 46 / 184)) = Int 31
  /\ gt (Int 122) 120 && gt (Int 31) 30 = true
  /\ fst (getCurrentSize banner_selected) = Ok (Int 122, Int 30)
  /\ display (this banner_selected) = Some (Created 4)
  /\ innerHTML (elements (doc banner_selected) (Created 4)) = "122 &times; 30"
  /\ style (elements (doc banner_selected) (Created 4)) !! "left" = Some "140px"
  /\ style (elements (doc banner_selected) (Created 4)) !! "top" = Some "178px".
Proof. repeat split; vm_compute; reflexivity. Qed.

(** The page of the examples starts consistent, and with the size display
    enabled it stays so whatever happens. *)
Lemma page_consistent b : consistent (constructor (with_displaySize b) page).
Proof.
  apply constructor_consistent; [|reflexivity].
  intros j Hj. apply list_elem_of_singleton in Hj. discriminate.
Qed.

Lemma page_always_consistent evs :
  consistent (handle_all flat_layout evs (constructor (with_displaySize true) page)).
Proof. apply handle_all_consistent; [apply page_consistent|reflexivity]. Qed.

Lemma handleDrag_without_image_witness :
  img (this (constructor (with_displaySize true) page)) = None
  /\ handleDrag flat_layout (mouse_at Document 80)
       (constructor (with_displaySize true) page)
     = (Ok tt, constructor (with_displaySize true) page).
Proof.
  split; [reflexivity|].
  apply (handleDrag_without_image flat_layout). reflexivity.
Defined.

Lemma handleMouseup_selected_witness :
  img (this (dragging true)) = Some imgA
  /\ exists s',
       handleMouseup (dragging true) = (Ok tt, s')
       /\ this s' = this (dragging true)
       /\ childNodes (doc s') = childNodes (doc (dragging true)).
Proof.
  split; [reflexivity|].
  destruct (handleMouseup_selected (dragging true) imgA eq_refl)
    as [(s' & Hr & Ht & Hc & _) _].
  exists s'. auto.
Defined.

Lemma positionSizeDisplay_placement_witness :
  display (this (selected true)) = Some (Created 4)
  /\ img (this (selected true)) = Some imgA
  /\ exists s',
       positionSizeDisplay flat_layout (flat_layout (doc (selected true)) imgA)
         (selected true) = (Ok tt, s')
       /\ innerHTML (elements (doc s') (Created 4)) = "200 &times; 150"
       /\ style (elements (doc s') (Created 4)) !! "left" = Some "202px"
       /\ style (elements (doc s') (Created 4)) !! "top" = Some "12px".
Proof.
  split; [reflexivity|]. split; [reflexivity|].
  destruct (positionSizeDisplay_placement flat_layout
              (flat_layout (doc (selected true)) imgA)
              (selected true) (Created 4) imgA eq_refl eq_refl)
    as (s' & Hr & Hh & Hl & Ht).
  exists s'. split; [exact Hr|].
  split; [rewrite Hh; vm_compute; reflexivity|].
  split; [rewrite Hl|rewrite Ht]; vm_compute; reflexivity.
Defined.

(** ** The general results at work on the concrete page *)

Lemma selected_consistent : consistent (selected true).
Proof.
  destruct (handleClick_consistent flat_layout (click imgA)
              (constructor (with_displaySize true) page)
              (page_consistent true) eq_refl) as (s' & Hr & Hc & _).
  unfold selected. rewrite Hr. exact Hc.
Qed.

Lemma page_fresh : fresh_ids page.
Proof. intros j Hj. apply list_elem_of_singleton in Hj. discriminate. Qed.

Lemma drag_last_move_counts_witness :
  img (this (dragging true)) = Some imgA
  /\ dragged_width (this (dragging true)) (clientX (mouse_at Document 80))
     = Int 20
  /\ width (elements (doc (handle_all flat_layout
              (map Mousemove [mouse_at Document 90]
               ++ [Mousemove (mouse_at Document 80)]) (dragging true))) imgA)
     = Int 20.
Proof.
  assert (dragged_width (this (dragging true)) (clientX (mouse_at Document 80))
          = Int 20) as Hd by (vm_compute; reflexivity).
  split; [reflexivity|]. split; [exact Hd|].
  apply (proj2 (drag_last_move_counts flat_layout
                  [mouse_at Document 90] (mouse_at Document 80)
                  (dragging true) imgA eq_refl) 20 Hd).
  lia.
Defined.

Lemma handleMousedown_selected_witness :
  img (this (selected true)) = Some imgA
  /\ exists s',
       handleMousedown (mouse_at (Created 1) 100) (selected true) = (Ok tt, s')
       /\ dragBox (this s') = Some (Created 1)
       /\ dragStartX (this s') = Some (Fin 100)
       /\ preDragWidth (this s') = Some (Fin 200)
       /\ style (elements (doc s') Body) !! "cursor" = Some "nesw-resize"
       /\ mousemove_listener ∈ listeners (doc s')
       /\ mouseup_listener ∈ listeners (doc s').
Proof.
  split; [reflexivity|].
  destruct (handleMousedown_selected (mouse_at (Created 1) 100)
              (selected true) imgA (Created 1) eq_refl eq_refl)
    as (s' & Hr & Ht & _ & _ & Hcur & Hmm & Hmu & _).
  exists s'. split; [exact Hr|].
  split; [by rewrite Ht|]. split; [by rewrite Ht|]. split; [by rewrite Ht|].
  split; [|split; [exact Hmm|exact Hmu]].
  rewrite (Hcur Body) by (by left). vm_compute. reflexivity.
Defined.

Lemma drag_right_handle_by_witness :
  width (elements (doc (selected true)) imgA) = Int 200
  /\ boxes (this (selected true)) !! 1%nat = Some (Created 1)
  /\ width (elements (doc (snd (handleDrag flat_layout (mouse_at Document 120)
              (snd (handleMousedown (mouse_at (Created 1) 100)
                      (selected true)))))) imgA)
     = Int 220.
Proof.
  split; [reflexivity|]. split; [reflexivity|].
  apply (drag_right_handle_by flat_layout (Some Document) (Created 1) 100 20
           (selected true) imgA 200).
  - reflexivity.
  - reflexivity.
  - lia.
  - lia.
  - lia.
  - lia.
  - intros H. vm_compute in H. discriminate H.
  - intros H. vm_compute in H. discriminate H.
Defined.

Lemma drag_listeners_removed_witness :
  img (this (selected true)) = Some imgA
  /\ (mousemove_listener ∉ listeners (doc (snd (handleMouseup
        (snd (handleMousedown (mouse_at (Created 0) 100) (selected true)))))))
  /\ (mouseup_listener ∉ listeners (doc (snd (handleMouseup
        (snd (handleMousedown (mouse_at (Created 0) 100) (selected true))))))).
Proof.
  split; [reflexivity|].
  exact (drag_listeners_removed (mouse_at (Created 0) 100) (selected true)
           imgA eq_refl).
Defined.

Lemma positionBoxes_corners_witness :
  boxes (this (selected true)) = [Created 0; Created 1; Created 2; Created 3]
  /\ exists s',
       positionBoxes
         {| rect_left := Fin 10; rect_top := Fin 20;
            rect_width := Fin 200; rect_height := Fin 150 |}
         (selected true) = (Ok tt, s')
       /\ style (elements (doc s') (Created 2)) !! "left" = Some "204px"
       /\ style (elements (doc s') (Created 2)) !! "top" = Some "164px".
Proof.
  split; [reflexivity|].
  destruct (positionBoxes_corners
              {| rect_left := Fin 10; rect_top := Fin 20;
                 rect_width := Fin 200; rect_height := Fin 150 |}
              (selected true) (Created 0) (Created 1) (Created 2) (Created 3)
              eq_refl)
    as (s' & Hr & _ & Hpos).
  { apply (bool_decide_unpack _). vm_compute. exact I. }
  exists s'. split; [exact Hr|].
  exact (Forall2_lookup_lr _ _ _ 2%nat _ _ Hpos eq_refl eq_refl).
Defined.

Lemma positionBoxes_too_few_witness :
  boxes (this (constructor (with_displaySize true) page)) = []
  /\ exists s',
       positionBoxes (flat_layout page imgA)
         (constructor (with_displaySize true) page) = (Throw TypeError, s').
Proof.
  split; [reflexivity|].
  destruct (positionBoxes_too_few (flat_layout page imgA)
              (constructor (with_displaySize true) page))
    as (s' & Hr & _).
  { cbn. lia. }
  exists s'. exact Hr.
Defined.

Lemma handle_cursors_witness :
  handleStyles (options (this (constructor (with_displaySize true) page))) = None
  /\ exists s',
       showResizers (constructor (with_displaySize true) page) = (Ok tt, s')
       /\ boxes (this s') = [Created 0; Created 1; Created 2; Created 3]
       /\ style (elements (doc s') (Created 1)) !! "cursor" = Some "nesw-resize".
Proof.
  split; [reflexivity|].
  destruct (handle_cursors (constructor (with_displaySize true) page)
              page_fresh eq_refl) as (s' & Hr & Hb & Hc).
  exists s'. split; [exact Hr|]. split; [exact Hb|].
  exact (proj1 (Forall2_lookup_lr _ _ _ 1%nat _ _ Hc eq_refl eq_refl)).
Defined.

Lemma getCurrentSize_scaled_witness :
  let s := snd (handleClick flat_layout (click imgB)
                  (constructor (with_displaySize true) page)) in
  img (this s) = Some imgB
  /\ naturalWidth (elements (doc s) imgB) = 100%N
  /\ naturalHeight (elements (doc s) imgB) = 50%N
  /\ getCurrentSize s = (Ok (Int 100, Int 50), s).
Proof.
  intros s. split; [reflexivity|]. split; [reflexivity|]. split; [reflexivity|].
  apply (getCurrentSize_scaled s imgB 1).
  - reflexivity.
  - intros H. vm_compute in H. discriminate H.
  - reflexivity.
Defined.

Lemma click_with_size_display_witness :
  displaySize (options (this (selected true))) = true
  /\ exists s',
       handleClick flat_layout (click imgB) (selected true) = (Ok tt, s')
       /\ consistent s'
       /\ img (this s') = Some imgB.
Proof.
  split; [reflexivity|].
  destruct (click_with_size_display flat_layout (click imgB) (selected true)
              selected_consistent eq_refl)
    as (s' & Hr & Hc & Hi & _).
  exists s'. split; [exact Hr|]. split; [exact Hc|exact Hi].
Defined.

Lemma overlays_stay_consistent_witness :
  fresh_ids page
  /\ filter is_created (childNodes page) = []
  /\ consistent (handle_all flat_layout
                   [Click (click imgA); Mousedown (mouse_at (Created 2) 300);
                    Mousemove (mouse_at Document 310); Keyup; Mouseup;
                    Click (click imgB)]
                   (constructor (with_displaySize true) page)).
Proof.
  split; [exact page_fresh|]. split; [reflexivity|].
  apply (overlays_stay_consistent flat_layout);
    [reflexivity|exact page_fresh|reflexivity].
Defined.

Lemma deselect_with_size_display_witness :
  img (this (selected true)) = Some imgA
  /\ exists s',
       handle flat_layout Keyup (selected true) = (Ok tt, s')
       /\ img (this s') = None
       /\ boxes (this s') = []
       /\ childNodes (doc s') = [Root].
Proof.
  split; [reflexivity|].
  destruct (deselect_with_size_display flat_layout Keyup (selected true) imgA
              (or_introl eq_refl) selected_consistent eq_refl)
    as (s' & Hr & Ht & Hc & _).
  exists s'. split; [exact Hr|].
  split; [by rewrite Ht|]. split; [by rewrite Ht|].
  rewrite Hc. vm_compute. reflexivity.
Defined.

Lemma select_then_deselect_witness :
  exists s1 s2,
    handleClick flat_layout (click imgA)
      (constructor (with_displaySize true) page) = (Ok tt, s1)
    /\ handleClick flat_layout (click Root) s1 = (Ok tt, s2)
    /\ img (this s2) = None
    /\ childNodes (doc s2) = [Root].
Proof.
  destruct (select_then_deselect flat_layout (click imgA) (click Root)
              (constructor (with_displaySize true) page)
              (page_consistent true) eq_refl eq_refl eq_refl eq_refl)
    as (s1 & s2 & Hr1 & _ & Hr2 & Ht & Hc).
  exists s1, s2. split; [exact Hr1|]. split; [exact Hr2|].
  split; [by rewrite Ht|]. rewrite Hc. reflexivity.
Defined.

Lemma show_without_size_display_witness :
  displaySize (with_displaySize false) = false
  /\ exists s',
       show flat_layout imgA (constructor (with_displaySize false) page)
       = (Ok tt, s')
       /\ boxes (this s') = [Created 0; Created 1; Created 2; Created 3]
       /\ display (this s') = None
       /\ childNodes (doc s')
          = [Root; Created 0; Created 1; Created 2; Created 3].
Proof.
  split; [reflexivity|].
  destruct (show_without_size_display flat_layout imgA
              (constructor (with_displaySize false) page)
              page_fresh eq_refl eq_refl)
    as (s' & Hr & (Ht & Hc & _)%structure_is & _).
  exists s'. split; [exact Hr|].
  split; [by rewrite Ht|]. split; [by rewrite Ht|]. rewrite Hc. reflexivity.
Defined.

Lemma hide_without_display_witness :
  display (this (selected false)) = None
  /\ exists e s',
       hide (selected false) = (Throw e, s')
       /\ img (this s') = img (this (selected false)).
Proof.
  split; [reflexivity|].
  exact (hide_without_display (selected false) eq_refl).
Defined.

Lemma watchers_stay_witness :
  let s := handle_all flat_layout [Click (click Root); Keyup]
             (snd (showResizers (constructor (with_displaySize true) page))) in
  keyup_listener ∈ listeners (doc s) /\ input_listener ∈ listeners (doc s).
Proof.
  exact (watchers_stay flat_layout (constructor (with_displaySize true) page)
           [Click (click Root); Keyup] page_fresh).
Defined.

Lemma drag_outlives_selection_witness :
  let s1 := snd (handleMousedown (mouse_at (Created 2) 300) (selected true)) in
  let r2 := checkImage s1 in
  let r3 := handleMouseup (snd r2) in
  img (this (selected true)) = Some imgA
  /\ fst r2 = Ok tt
  /\ fst r3 = Throw TypeError
  /\ mousemove_listener ∈ listeners (doc (snd r3))
  /\ mouseup_listener ∈ listeners (doc (snd r3)).
Proof.
  intros s1 r2 r3. split; [reflexivity|].
  destruct (drag_outlives_selection (mouse_at (Created 2) 300) (selected true)
              imgA (Created 2) selected_consistent eq_refl eq_refl)
    as (H2 & _ & H3 & Hmm & Hmu).
  split; [exact H2|]. split; [exact H3|]. split; [exact Hmm|exact Hmu].
Defined.

End ImageResizeProofs.
